(** * The deterministic video scheduler of [video-scheduler.js]

    A shallow embedding of the [VideoScheduler] class: the UTC seed
    generator, the seeded Fisher-Yates shuffle, the schedule state manager
    ([generateSchedule], [playNextVideo]), the static-interference guard
    ([onStaticDetected]) and the configuration loader ([loadConfig]).

    JavaScript numbers that hold integers (timestamps, indices, counters,
    seeds) are modelled as [Z]; this is exact below 2^53, far above every
    value the scheduler computes.  Static levels and the detection threshold
    are finite doubles, modelled as rationals ([Q]); only their order is
    used.  [null] and [undefined] are both modelled by [None]. *)

From Stdlib Require Import ZArith QArith Lia.
From stdpp Require Import gmap strings list sorting.

Local Open Scope Z_scope.

(** ** The built-in [Date] arithmetic used by the seed generator

    The functions below follow the abstract operations of the ECMAScript
    [Date] object (all on integral millisecond time values).  [tza] is the
    zone offset, in milliseconds east of UTC, that the host applies to the
    local time being converted, so that [UTC t = t - tza]: its one offset on
    a host without daylight saving, and on a host with it the offset its
    rules give for that local time (which can differ from one date to
    another).  [TimeClip] is not applied: a result is the time value of the
    [Date] only when it lies within [maxTime] of the epoch, and the
    statements that need this bound the instant. *)

Module JSDate.

Definition msPerDay : Z := 24 * 60 * 60 * 1000.
Definition msPerHour : Z := 60 * 60 * 1000.

(** The largest time value a [Date] holds (100,000,000 days); beyond it
    [TimeClip] gives [NaN]. *)
Definition maxTime : Z := 8640000000000000.

(** [Day(t)]: the day number of a time value. *)
Definition Day (t : Z) : Z := t / msPerDay.

(** Proleptic Gregorian date (year, month 1..12, day 1..31) of a day
    number counted from 1970-01-01. *)
Definition civil_from_days (day : Z) : Z * Z * Z :=
  let z := day + 719468 in
  let era := z / 146097 in
  let doe := z - era * 146097 in
  let yoe := (doe - doe / 1460 + doe / 36524 - doe / 146096) / 365 in
  let doy := doe - (365 * yoe + yoe / 4 - yoe / 100) in
  let mp := (5 * doy + 2) / 153 in
  let d := doy - (153 * mp + 2) / 5 + 1 in
  let m := if mp <? 10 then mp + 3 else mp - 9 in
  let y := yoe + era * 400 in
  (if m <=? 2 then y + 1 else y, m, d).

(** Day number of a proleptic Gregorian date. *)
Definition days_from_civil (y m d : Z) : Z :=
  let y' := if m <=? 2 then y - 1 else y in
  let era := y' / 400 in
  let yoe := y' - era * 400 in
  let doy := (153 * (if 2 <? m then m - 3 else m + 9) + 2) / 5 + d - 1 in
  let doe := yoe * 365 + yoe / 4 - yoe / 100 + doy in
  era * 146097 + doe - 719468.

(** [getUTCFullYear], [getUTCMonth] (0-based) and [getUTCDate]. *)
Definition getUTCFullYear (t : Z) : Z := fst (fst (civil_from_days (Day t))).
Definition getUTCMonth (t : Z) : Z := snd (fst (civil_from_days (Day t))) - 1.
Definition getUTCDate (t : Z) : Z := snd (civil_from_days (Day t)).

(** [MakeDay(year, month, date)] with a 0-based, possibly out-of-range
    month. *)
Definition MakeDay (year month date : Z) : Z :=
  let ym := year + month / 12 in
  let mn := month mod 12 in
  days_from_civil ym (mn + 1) 1 + date - 1.

(** [new Date(year, month, date).getTime()] on a host that applies the
    offset [tza] to that local midnight: the three components are read as a
    LOCAL calendar date at local midnight (years 0..99 denote 1900..1999),
    and the local time value is converted to UTC. *)
Definition new_Date_ymd (tza : Z) (year month date : Z) : Z :=
  let yr := if (0 <=? year) && (year <=? 99) then 1900 + year else year in
  MakeDay yr month date * msPerDay - tza.

(** [Date.UTC(year, month, date)]: the same components read as a UTC
    date.  The scheduler does not call it; it is the reference against
    which the local constructor is compared. *)
Definition Date_UTC (year month date : Z) : Z :=
  let yr := if (0 <=? year) && (year <=? 99) then 1900 + year else year in
  MakeDay yr month date * msPerDay.

(** The date within a 400-year era, from the day of the era. *)
Definition era_date (doe : Z) : Z * Z * Z :=
  let yoe := (doe - doe / 1460 + doe / 36524 - doe / 146096) / 365 in
  let doy := doe - (365 * yoe + yoe / 4 - yoe / 100) in
  let mp := (5 * doy + 2) / 153 in
  let d := doy - (153 * mp + 2) / 5 + 1 in
  let m := if mp <? 10 then mp + 3 else mp - 9 in
  (yoe, m, d).

(** The check made on each day of an era: year of era and month in range,
    and the day of the era recovered from the date. *)
Definition era_date_ok (doe : Z) : bool :=
  let '(yoe, m, d) := era_date doe in
  (0 <=? yoe) && (yoe <? 400) && (1 <=? m) && (m <=? 12)
  && (yoe * 365 + yoe / 4 - yoe / 100
      + ((153 * (if 2 <? m then m - 3 else m + 9) + 2) / 5 + d - 1) =? doe).

(** Checking a predicate on every integer below a bound by iteration. *)
Definition scan (p : Z → bool) (acc : Z * bool) : Z * bool :=
  (fst acc + 1, snd acc && p (fst acc)).

End JSDate.

(** ** Configuration ([this.config]) *)

Record Config := mkConfig {
  shuffleSeed : option Z;
  scheduleRebuildInterval : Z;
  staticDetectionThreshold : Q;
  maxStaticDuration : Z;
  videoTransitionDelay : Z;
  regenerateOnBuild : bool;
  timezoneMode : string;
  dailySeedReset : bool
}.

(** The configuration installed by the constructor. *)
Definition default_config : Config :=
  {| shuffleSeed := None;
     scheduleRebuildInterval := 3600000;
     staticDetectionThreshold := (3 # 10)%Q;
     maxStaticDuration := 5000;
     videoTransitionDelay := 2000;
     regenerateOnBuild := true;
     timezoneMode := "utc";
     dailySeedReset := true |}.

(** ** Seed generator

    [generateUTCSeed(date)] on a host in zone [tza], [t] being the time
    value of [date] (or of [new Date()] when the argument is omitted).
    [new Date(targetDate.toISOString())] has the time value of
    [targetDate].  [%] is the truncating remainder. *)
Definition generateUTCSeed (cfg : Config) (tza : Z) (t : Z) : Z :=
  if dailySeedReset cfg then
    let utcDate := t in
    let utcMidnight :=
      JSDate.new_Date_ymd tza (JSDate.getUTCFullYear utcDate)
                          (JSDate.getUTCMonth utcDate)
                          (JSDate.getUTCDate utcDate) in
    let daysSinceEpoch := utcMidnight / (24 * 60 * 60 * 1000) in
    Z.rem (daysSinceEpoch * 31) 1000000
  else
    let utcHour := t / (60 * 60 * 1000) in
    Z.rem (utcHour * 17) 1000000.

(** The local [utcMidnight] of [generateUTCSeed], as a time value. *)
Definition utcMidnight (tza : Z) (t : Z) : Z :=
  JSDate.new_Date_ymd tza (JSDate.getUTCFullYear t) (JSDate.getUTCMonth t)
                      (JSDate.getUTCDate t).

(** ** Arrays on the heap

    An array object has its indexed elements ([elems], a slot holding
    [None] reads as [undefined]) and, beside them, the properties created by
    writing at a negative index ([props]): such a write does not touch the
    elements or the length.  Arrays live in a heap and are passed by
    reference. *)

Section Arrays.

Context {A : Type}.

Record jsarray := mkArray {
  elems : list (option A);
  props : gmap Z (option A)
}.

(** [o[i]]: out of range and absent properties read as [undefined]. *)
Definition obj_get (o : jsarray) (i : Z) : option A :=
  if 0 <=? i then default None (elems o !! Z.to_nat i)
  else default None (props o !! i).

(** [o[i] = v]: in range the slot is overwritten, past the end the array
    grows (the gap reads as [undefined]), at a negative index a property
    is set. *)
Definition obj_set (o : jsarray) (i : Z) (v : option A) : jsarray :=
  if 0 <=? i then
    let n := Z.to_nat i in
    if (n <? length (elems o))%nat
    then mkArray (<[n := v]> (elems o)) (props o)
    else mkArray (elems o ++ replicate (n - length (elems o)) None ++ [v])
                 (props o)
  else mkArray (elems o) (<[i := v]> (props o)).

Definition loc := positive.

Definition heap_get (h : gmap loc jsarray) (r : loc) (i : Z) : option A :=
  match h !! r with
  | Some o => obj_get o i
  | None => None
  end.

Definition heap_set (h : gmap loc jsarray) (r : loc) (i : Z) (v : option A)
  : gmap loc jsarray :=
  alter (fun o => obj_set o i v) r h.

(** *** Fisher-Yates shuffle

    [random] is the generator closure: from its captured state it yields
    the numerator of the next value of [random()] over a fixed denominator,
    and its new state.  [pick num currentIndex] is [Math.floor(random() *
    currentIndex)].  Both [while] loops of [shuffleArray] have this body;
    they differ in the generator only.  The loop counter [currentIndex]
    runs from the length down to 0; the two reads of the destructuring
    exchange come before its two writes. *)
Fixpoint fisher_yates {S : Type} (random : S -> Z * S) (pick : Z -> nat -> Z)
    (currentIndex : nat) (st : S) (h : gmap loc jsarray) (shuffled : loc)
  : gmap loc jsarray :=
  match currentIndex with
  | O => h
  | Datatypes.S currentIndex' =>
      let '(num, st') := random st in
      let randomIndex := pick num currentIndex in
      let a_random := heap_get h shuffled randomIndex in
      let a_current := heap_get h shuffled (Z.of_nat currentIndex') in
      let h1 := heap_set h shuffled (Z.of_nat currentIndex') a_random in
      let h2 := heap_set h1 shuffled randomIndex a_current in
      fisher_yates random pick currentIndex' st' h2 shuffled
  end.

(** [Math.floor(random() * currentIndex)] for [random() = num / den], taken
    as the floor of the exact product.  Double precision rounds the quotient
    and the product to 53 bits; that can change the index only when the
    exact product is within rounding distance of an integer, and then to a
    neighbouring index that is still in [0, currentIndex).  The lemmas on
    the loop below depend on that interval only. *)
Definition floor_product (den : Z) (num : Z) (currentIndex : nat) : Z :=
  (num * Z.of_nat currentIndex) / den.

(** The seeded generator: [seed = (seed * 9301 + 49297) % 233280;
    return seed / 233280].  The first component is the numerator of the
    value returned, the second the new captured seed.  The arithmetic is
    that of the integers, which is the arithmetic of the code as long as
    [seed * 9301 + 49297] is below 2^53 in absolute value; after the first
    step the seed is below 233280 in absolute value, so only the seed
    handed to [shuffleArray] needs that bound. *)
Definition seeded_random (seed : Z) : Z * Z :=
  let seed' := Z.rem (seed * 9301 + 49297) 233280 in
  (seed', seed').

(** [Math.random()]: the [k]-th draw of the engine's generator is the
    double [mathRandom k / 2^53]; the state counts the draws made. *)
Definition engine_random (mathRandom : nat -> Z) (k : nat) : Z * nat :=
  (mathRandom k, Datatypes.S k).

(** [shuffleArray(array, seed)].  [array] is a reference; [None] is the
    TypeError of spreading something that is not an array.  The copy
    [[...array]] takes the elements only and is a new object. *)
Definition shuffleArray (mathRandom : nat -> Z) (h : gmap loc jsarray)
    (array : loc) (seed : option Z) : option (gmap loc jsarray * loc) :=
  match h !! array with
  | None => None
  | Some o =>
      let shuffled := fresh (dom h) in
      let h0 := <[shuffled := mkArray (elems o) ∅]> h in
      let currentIndex := length (elems o) in
      match seed with
      | Some seed =>
          Some (fisher_yates seeded_random (floor_product 233280) currentIndex seed
                             h0 shuffled,
                shuffled)
      | None =>
          Some (fisher_yates (engine_random mathRandom) (floor_product (2 ^ 53))
                             currentIndex O h0 shuffled,
                shuffled)
      end
  end.

(** The elements of the array [shuffleArray] returns when it is handed a
    newly built array holding [items], as [generateSchedule] does. *)
Definition shuffled_items (items : list (option A)) (seed : Z)
  : list (option A) :=
  match shuffleArray (fun _ => 0) {[ 1%positive := mkArray items ∅ ]}
                     1%positive (Some seed) with
  | Some (h', r) => match h' !! r with
                    | Some o => elems o
                    | None => []
                    end
  | None => []
  end.

End Arrays.

Arguments jsarray A : clear implicits.


(** ** Scheduler state *)

(** [this.schedule].  [generated] is [null] or a timestamp; the slots of
    [shuffledOrder] are file names (or [undefined]). *)
Record Schedule := mkSchedule {
  generated : option Z;
  shuffledOrder : list (option string);
  currentIndex : Z;
  totalPlayed : Z;
  staticDetected : bool;
  currentVideo : option string
}.

(** What the scheduler does to the outside: console lines, timers armed and
    cleared.  The trace is kept newest first. *)
Inductive event :=
  | LogLoadedConfig
  | LogLoadConfigError
  | LogScheduleSaved
  | LogSaveScheduleError
  | LogSaveConfigError
  | LogNoVideosFound
  | LogUsingExisting (ageMinutes : Z)
  | LogGenerating (count : nat)
  | LogGenerated (seed : Z) (dailyReset : bool) (order : list (option string))
  | LogStaticDetected (level : Q)
  | StaticTimerArmed (delay : Z)
  | StaticTimerCleared
  | LogStaticCleared
  | LogStopping (video : string)
  | VideoTimerCleared
  | LogStaticSkip
  | LogNoVideosInSchedule
  | LogPlaying (position : Z) (total : nat) (video : option string)
  | LogCycleComplete (total : nat).

(** A pending [setTimeout] handle, identified by its delay. *)
Record timer := mkTimer { delay : Z }.

(** The contents of [scheduler-config.json]: a JSON object holding any
    subset of the configuration keys. *)
Record ConfigData := mkConfigData {
  d_shuffleSeed : option (option Z);
  d_scheduleRebuildInterval : option Z;
  d_staticDetectionThreshold : option Q;
  d_maxStaticDuration : option Z;
  d_videoTransitionDelay : option Z;
  d_regenerateOnBuild : option bool;
  d_timezoneMode : option string;
  d_dailySeedReset : option bool
}.

(** A file on disk: absent, unreadable (I/O error or malformed JSON), or
    holding a record. *)
Inductive file (T : Type) :=
  | Absent
  | Unreadable
  | Holds (data : T).
Arguments Absent {T}.
Arguments Unreadable {T}.
Arguments Holds {T} data.

(** The scheduler object together with the two files it owns and the trace
    of its effects. *)
Record Scheduler := mkScheduler {
  schedule : Schedule;
  config : Config;
  isStaticActive : bool;
  staticTimer : option timer;
  videoTimer : option timer;
  scheduleFile : file Schedule;
  configFile : file ConfigData;
  trace : list event
}.

(** The state built by the constructor, before any file is read. *)
Definition initial_schedule : Schedule :=
  {| generated := None; shuffledOrder := []; currentIndex := 0;
     totalPlayed := 0; staticDetected := false; currentVideo := None |}.

Definition new_VideoScheduler (sf : file Schedule) (cf : file ConfigData)
  : Scheduler :=
  {| schedule := initial_schedule; config := default_config;
     isStaticActive := false; staticTimer := None; videoTimer := None;
     scheduleFile := sf; configFile := cf; trace := [] |}.

Definition log (e : event) (s : Scheduler) : Scheduler :=
  mkScheduler (schedule s) (config s) (isStaticActive s) (staticTimer s)
              (videoTimer s) (scheduleFile s) (configFile s) (e :: trace s).

Definition set_schedule (sch : Schedule) (s : Scheduler) : Scheduler :=
  mkScheduler sch (config s) (isStaticActive s) (staticTimer s)
              (videoTimer s) (scheduleFile s) (configFile s) (trace s).

Definition set_config (c : Config) (s : Scheduler) : Scheduler :=
  mkScheduler (schedule s) c (isStaticActive s) (staticTimer s)
              (videoTimer s) (scheduleFile s) (configFile s) (trace s).

(** ** Loading and saving *)

(** [{ ...this.config, ...data }]: every key present in [data] replaces the
    current value; the other keys keep it.  No value is inspected. *)
Definition spread_config (c : Config) (data : ConfigData) : Config :=
  {| shuffleSeed := default (shuffleSeed c) (d_shuffleSeed data);
     scheduleRebuildInterval :=
       default (scheduleRebuildInterval c) (d_scheduleRebuildInterval data);
     staticDetectionThreshold :=
       default (staticDetectionThreshold c) (d_staticDetectionThreshold data);
     maxStaticDuration := default (maxStaticDuration c) (d_maxStaticDuration data);
     videoTransitionDelay :=
       default (videoTransitionDelay c) (d_videoTransitionDelay data);
     regenerateOnBuild := default (regenerateOnBuild c) (d_regenerateOnBuild data);
     timezoneMode := default (timezoneMode c) (d_timezoneMode data);
     dailySeedReset := default (dailySeedReset c) (d_dailySeedReset data) |}.

(** [loadConfig()]: nothing happens when the file is absent; a failing read
    is caught and logged. *)
Definition loadConfig (s : Scheduler) : Scheduler :=
  match configFile s with
  | Absent => s
  | Unreadable => log LogLoadConfigError s
  | Holds data =>
      log LogLoadedConfig (set_config (spread_config (config s) data) s)
  end.

(** The JSON object [writeJson] produces for a configuration. *)
Definition config_to_data (c : Config) : ConfigData :=
  {| d_shuffleSeed := Some (shuffleSeed c);
     d_scheduleRebuildInterval := Some (scheduleRebuildInterval c);
     d_staticDetectionThreshold := Some (staticDetectionThreshold c);
     d_maxStaticDuration := Some (maxStaticDuration c);
     d_videoTransitionDelay := Some (videoTransitionDelay c);
     d_regenerateOnBuild := Some (regenerateOnBuild c);
     d_timezoneMode := Some (timezoneMode c);
     d_dailySeedReset := Some (dailySeedReset c) |}.

(** [saveSchedule()] and [saveConfig()]; [ok] tells whether the write
    succeeds.  [ok = false] stands for a write that is refused before the
    file is opened (a missing or read-only directory, a path that is a
    directory): [writeJson] rejects, the error is caught and logged, and the
    file is not touched.  A write that fails after the file was opened
    leaves a truncated file; that failure is outside this model. *)
Definition saveSchedule (ok : bool) (s : Scheduler) : Scheduler :=
  if ok then
    log LogScheduleSaved
        (mkScheduler (schedule s) (config s) (isStaticActive s) (staticTimer s)
                     (videoTimer s) (Holds (schedule s)) (configFile s) (trace s))
  else log LogSaveScheduleError s.

Definition saveConfig (ok : bool) (s : Scheduler) : Scheduler :=
  if ok then
    mkScheduler (schedule s) (config s) (isStaticActive s) (staticTimer s)
                (videoTimer s) (scheduleFile s)
                (Holds (config_to_data (config s))) (trace s)
  else log LogSaveConfigError s.

(** ** Schedule generation *)

(** What one call of [generateSchedule] reads from its surroundings. *)
Record GenEnv := mkGenEnv {
  videos : list string;          (* result of [getVideoFiles()] *)
  now : Z;                       (* [Date.now()] *)
  seedInstant : Z;               (* [new Date()] inside [generateUTCSeed] *)
  hostZone : Z;                  (* zone offset of the host, ms east of UTC *)
  NODE_ENV : option string;      (* [process.env.NODE_ENV] *)
  BUILD_ENV : option string;     (* [process.env.BUILD_ENV] *)
  configWriteOk : bool;
  scheduleWriteOk : bool
}.

(** Truthiness of an environment variable: set and not empty. *)
Definition env_truthy (v : option string) : bool :=
  match v with
  | Some s => negb (String.eqb s "")
  | None => false
  end.

(** Truthiness of [this.schedule.generated]: neither [null] nor 0. *)
Definition generated_truthy (g : option Z) : bool :=
  match g with
  | Some t => negb (t =? 0)
  | None => false
  end.

Definition isBuildEnvironment (e : GenEnv) (c : Config) : bool :=
  match NODE_ENV e with
  | Some v => String.eqb v "production"
  | None => false
  end || env_truthy (BUILD_ENV e) || regenerateOnBuild c.

(** [scheduleAge >= this.config.scheduleRebuildInterval], the age being
    [Infinity] when there is no generation time. *)
Definition schedule_stale (e : GenEnv) (s : Scheduler) : bool :=
  match generated (schedule s) with
  | Some t => if generated_truthy (Some t)
              then scheduleRebuildInterval (config s) <=? now e - t
              else true
  | None => true
  end.

Definition shouldRegenerate (forceRegenerate : bool) (e : GenEnv)
    (s : Scheduler) : bool :=
  forceRegenerate
  || isBuildEnvironment e (config s)
  || negb (generated_truthy (generated (schedule s)))
  || negb (length (shuffledOrder (schedule s)) =? length (videos e))%nat
  || schedule_stale e s.

(** [scheduleAge], as printed in minutes by the keep-existing branch (which
    is reached only with a generation time). *)
Definition scheduleAge (e : GenEnv) (s : Scheduler) : Z :=
  match generated (schedule s) with
  | Some t => now e - t
  | None => 0
  end.

(** [generateSchedule(forceRegenerate)]: the returned boolean and the new
    state. *)
Definition generateSchedule (forceRegenerate : bool) (e : GenEnv)
    (s : Scheduler) : bool * Scheduler :=
  if (length (videos e) =? 0)%nat then
    (false, log LogNoVideosFound s)
  else if negb (shouldRegenerate forceRegenerate e s) then
    (true, log (LogUsingExisting (scheduleAge e s / 60000)) s)
  else
    let s1 := log (LogGenerating (length (videos e))) s in
    let seed := generateUTCSeed (config s1) (hostZone e) (seedInstant e) in
    let c := config s1 in
    let s2 := set_config
                (mkConfig (Some seed) (scheduleRebuildInterval c)
                          (staticDetectionThreshold c) (maxStaticDuration c)
                          (videoTransitionDelay c) (regenerateOnBuild c)
                          (timezoneMode c) (dailySeedReset c)) s1 in
    let order := shuffled_items (Some <$> videos e) seed in
    let s3 := set_schedule
                (mkSchedule (Some (now e)) order 0 0
                            (staticDetected (schedule s2))
                            (currentVideo (schedule s2))) s2 in
    let s4 := saveConfig (configWriteOk e) s3 in
    let s5 := saveSchedule (scheduleWriteOk e) s4 in
    (true,
     log (LogGenerated seed (dailySeedReset (config s5))
                       (shuffledOrder (schedule s5))) s5).

(** ** Interference guard *)

(** Truthiness of [this.schedule.currentVideo]: a non-empty name. *)
Definition video_truthy (v : option string) : option string :=
  match v with
  | Some name => if String.eqb name "" then None else Some name
  | None => None
  end.

(** [stopCurrentVideo()]. *)
Definition stopCurrentVideo (s : Scheduler) : Scheduler :=
  match video_truthy (currentVideo (schedule s)) with
  | Some v =>
      let s1 := log (LogStopping v) s in
      let sch := schedule s1 in
      let s2 := set_schedule
                  (mkSchedule (generated sch) (shuffledOrder sch)
                              (currentIndex sch) (totalPlayed sch)
                              (staticDetected sch) None) s1 in
      match videoTimer s2 with
      | Some _ =>
          mkScheduler (schedule s2) (config s2) (isStaticActive s2)
                      (staticTimer s2) None (scheduleFile s2) (configFile s2)
                      (VideoTimerCleared :: trace s2)
      | None => s2
      end
  | None => s
  end.

(** [level > threshold] on finite doubles. *)
Definition exceeds (level threshold : Q) : bool := negb (Qle_bool level threshold).

(** [onStaticDetected(level)]. *)
Definition onStaticDetected (level : Q) (s : Scheduler) : Scheduler :=
  if exceeds level (staticDetectionThreshold (config s)) then
    if negb (isStaticActive s) then
      let s1 := log (LogStaticDetected level) s in
      let s2 := mkScheduler (schedule s1) (config s1) true (staticTimer s1)
                            (videoTimer s1) (scheduleFile s1) (configFile s1)
                            (trace s1) in
      let s3 := stopCurrentVideo s2 in
      mkScheduler (schedule s3) (config s3) (isStaticActive s3)
                  (Some (mkTimer (maxStaticDuration (config s3))))
                  (videoTimer s3) (scheduleFile s3) (configFile s3)
                  (StaticTimerArmed (maxStaticDuration (config s3)) :: trace s3)
    else s
  else
    if isStaticActive s then
      let s1 := log LogStaticCleared s in
      let s2 := mkScheduler (schedule s1) (config s1) false (staticTimer s1)
                            (videoTimer s1) (scheduleFile s1) (configFile s1)
                            (trace s1) in
      match staticTimer s2 with
      | Some _ =>
          mkScheduler (schedule s2) (config s2) (isStaticActive s2) None
                      (videoTimer s2) (scheduleFile s2) (configFile s2)
                      (StaticTimerCleared :: trace s2)
      | None => s2
      end
    else s.

(** ** Playback *)

(** [this.schedule.shuffledOrder[i]]. *)
Definition order_at (sch : Schedule) (i : Z) : option string :=
  if 0 <=? i then default None (shuffledOrder sch !! Z.to_nat i) else None.

(** [playNextVideo()]: the returned video ([None] for [null]) and the new
    state.  [ok] is the outcome of the write in [saveSchedule]. *)
Definition playNextVideo (ok : bool) (s : Scheduler)
  : option string * Scheduler :=
  if isStaticActive s then
    (None, log LogStaticSkip s)
  else if (length (shuffledOrder (schedule s)) =? 0)%nat then
    (None, log LogNoVideosInSchedule s)
  else
    let sch := schedule s in
    let len := length (shuffledOrder sch) in
    let video := order_at sch (currentIndex sch) in
    let s1 := set_schedule
                (mkSchedule (generated sch) (shuffledOrder sch)
                            (currentIndex sch) (totalPlayed sch + 1)
                            (staticDetected sch) video) s in
    let s2 := log (LogPlaying (currentIndex sch + 1) len video) s1 in
    let next := Z.rem (currentIndex sch + 1) (Z.of_nat len) in
    let sch2 := schedule s2 in
    let s3 := set_schedule
                (mkSchedule (generated sch2) (shuffledOrder sch2) next
                            (totalPlayed sch2) (staticDetected sch2)
                            (currentVideo sch2)) s2 in
    let s4 := if next =? 0 then log (LogCycleComplete len) s3 else s3 in
    (video, saveSchedule ok s4).

(** ** Runs of the scheduler

    The operations that can be applied to a running scheduler, and the state
    a sequence of them leads to. *)
Inductive op :=
  | OpReport (level : Q)
  | OpPlayNext (ok : bool)
  | OpGenerate (force : bool) (e : GenEnv)
  | OpStop.

Definition step (o : op) (s : Scheduler) : Scheduler :=
  match o with
  | OpReport level => onStaticDetected level s
  | OpPlayNext ok => snd (playNextVideo ok s)
  | OpGenerate force e => snd (generateSchedule force e s)
  | OpStop => stopCurrentVideo s
  end.

Definition run (ops : list op) (s : Scheduler) : Scheduler :=
  foldl (fun st o => step o st) s ops.

(** [n] consecutive calls of [playNextVideo]: the values returned, oldest
    first, and the final state. *)
Fixpoint play_many (oks : list bool) (s : Scheduler)
  : list (option string) * Scheduler :=
  match oks with
  | [] => ([], s)
  | ok :: oks' =>
      let '(v, s1) := playNextVideo ok s in
      let '(vs, s2) := play_many oks' s1 in
      (v :: vs, s2)
  end.

(** The guard is not moved out of the suppressed (resp. clear) state by
    these operations: everything but a report on the other side of the
    threshold. *)
Definition keeps_suppressed (threshold : Q) (o : op) : bool :=
  match o with
  | OpReport level => exceeds level threshold
  | _ => true
  end.

Definition keeps_clear (threshold : Q) (o : op) : bool :=
  match o with
  | OpReport level => negb (exceeds level threshold)
  | _ => true
  end.

(** ** Sample states used in the examples below *)

Definition demo_schedule (cursor played : Z) : Schedule :=
  mkSchedule (Some 1759752000000) [Some "a.mp4"; Some "b.mp4"; Some "c.mp4"]
             cursor played false None.

Definition demo_scheduler (cursor played : Z) (static : bool) : Scheduler :=
  mkScheduler (demo_schedule cursor played) default_config static None None
              Absent Absent [].

Definition quiet_config : Config :=
  mkConfig (Some 631377) 3600000 (3 # 10)%Q 5000 2000 false "utc" true.

Definition demo_env (t : Z) : GenEnv :=
  mkGenEnv ["a.mp4"; "b.mp4"; "c.mp4"] t t 0 None None true true.

Definition quiet_scheduler (cursor played : Z) : Scheduler :=
  mkScheduler (demo_schedule cursor played) quiet_config false None None
              Absent Absent [].

Definition negative_threshold_data : ConfigData :=
  mkConfigData None None (Some (-1 # 2)%Q) None None None None None.

(** ** Catalog listing

    File names are strings of code units below 256, so that the order of
    [String.leb] is the code-unit order the default [sort()] uses, and the
    case-insensitive match of the ASCII pattern folds the letters A-Z
    only. *)

Definition ascii_lower (a : Ascii.ascii) : Ascii.ascii :=
  let n := Ascii.nat_of_ascii a in
  if (65 <=? n)%nat && (n <=? 90)%nat then Ascii.ascii_of_nat (n + 32) else a.

Fixpoint string_lower (s : string) : string :=
  match s with
  | EmptyString => EmptyString
  | String a s' => String (ascii_lower a) (string_lower s')
  end.

Definition ends_with (suffix s : string) : bool :=
  let m := String.length suffix in
  let n := String.length s in
  (m <=? n)%nat && String.eqb (String.substring (n - m) m s) suffix.

Definition video_extensions : list string :=
  ["mp4"; "avi"; "mov"; "mkv"; "webm"; "flv"; "wmv"; "m4v"; "3gp"].

(** [/\.(mp4|avi|mov|mkv|webm|flv|wmv|m4v|3gp)$/i.test(file)]. *)
Definition is_video_file (file : string) : bool :=
  existsb (fun ext => ends_with ("." +:+ ext) (string_lower file))
          video_extensions.

(** The order of the default [sort()] on strings. *)
Definition name_le (a b : string) : Prop := String.leb a b = true.

#[global] Instance name_le_dec : RelDecision name_le.
Proof. intros a b. unfold name_le. apply _. Defined.

(** Console lines printed outside the operations modelled above. *)
Inductive notice :=
  | NoteReadDirError
  | NoteBanner
  | NoteLoadedSchedule (generatedAt : option Z)
  | NoteNoExistingSchedule
  | NoteLoadScheduleError
  | NoteStaticDetectionInit (threshold : Q) (maxDuration : Z)
  | NoteReady
  | NoteForcing
  | NoteRegenerated
  | NoteRegenerateFailed
  | NoteStartingPlayback
  | NoteCannotStart
  | NoteVideoEnded (transitionDelay : Z)
  | NoteSimulating (level : Q) (duration : Z)
  | NoteTimezoneTest
  | NoteSeedOf (instant seed : Z)
  | NoteTimezoneTestDone.

(** [getVideoFiles()]: [listing] is what [readdir] yields, [None] when it
    fails; the failure is caught and gives the empty catalog. *)
Definition getVideoFiles (listing : option (list string))
  : list string * list notice :=
  match listing with
  | Some files =>
      (merge_sort name_le (filter (fun f => is_video_file f = true) files), [])
  | None => ([], [NoteReadDirError])
  end.

(** The surroundings of a [generateSchedule] call whose catalog is read
    from the directory listing. *)
Definition env_of_listing (listing : option (list string)) (e : GenEnv)
  : GenEnv :=
  mkGenEnv (fst (getVideoFiles listing)) (now e) (seedInstant e) (hostZone e)
           (NODE_ENV e) (BUILD_ENV e) (configWriteOk e) (scheduleWriteOk e).

(** ** Loading the schedule, start-up *)

(** The contents of [video-schedule.json]: a JSON object holding any subset
    of the schedule keys. *)
Record ScheduleData := mkScheduleData {
  d_generated : option (option Z);
  d_shuffledOrder : option (list (option string));
  d_currentIndex : option Z;
  d_totalPlayed : option Z;
  d_staticDetected : option bool;
  d_currentVideo : option (option string)
}.

(** [{ ...this.schedule, ...data }]. *)
Definition spread_schedule (sch : Schedule) (data : ScheduleData) : Schedule :=
  {| generated := default (generated sch) (d_generated data);
     shuffledOrder := default (shuffledOrder sch) (d_shuffledOrder data);
     currentIndex := default (currentIndex sch) (d_currentIndex data);
     totalPlayed := default (totalPlayed sch) (d_totalPlayed data);
     staticDetected := default (staticDetected sch) (d_staticDetected data);
     currentVideo := default (currentVideo sch) (d_currentVideo data) |}.

(** The JSON object [writeJson] produces for a schedule.  (A property that
    is [undefined] is left out by [JSON.stringify] where one that is [null]
    is written; the object built by the constructor reads both back as
    [None].) *)
Definition schedule_to_data (sch : Schedule) : ScheduleData :=
  {| d_generated := Some (generated sch);
     d_shuffledOrder := Some (shuffledOrder sch);
     d_currentIndex := Some (currentIndex sch);
     d_totalPlayed := Some (totalPlayed sch);
     d_staticDetected := Some (staticDetected sch);
     d_currentVideo := Some (currentVideo sch) |}.

(** [loadSchedule()] on a file holding [f]. *)
Definition loadSchedule_from (f : file ScheduleData) (s : Scheduler)
  : list notice * Scheduler :=
  match f with
  | Absent => ([NoteNoExistingSchedule], s)
  | Unreadable => ([NoteLoadScheduleError], s)
  | Holds data =>
      let s1 := set_schedule (spread_schedule (schedule s) data) s in
      ([NoteLoadedSchedule (generated (schedule s1))], s1)
  end.

Definition file_map {T U : Type} (f : T -> U) (x : file T) : file U :=
  match x with
  | Absent => Absent
  | Unreadable => Unreadable
  | Holds data => Holds (f data)
  end.

(** [loadSchedule()] on the schedule file of the scheduler, as
    [saveSchedule] left it. *)
Definition loadSchedule (s : Scheduler) : list notice * Scheduler :=
  loadSchedule_from (file_map schedule_to_data (scheduleFile s)) s.

(** [initStaticDetection()]. *)
Definition initStaticDetection (s : Scheduler) : list notice :=
  [NoteStaticDetectionInit (staticDetectionThreshold (config s))
                           (maxStaticDuration (config s))].

(** [init()]; [dirOk] tells whether [ensureDir] succeeds.  Its failure is
    not caught here: [None] is the exception. *)
Definition init (dirOk : bool) (s : Scheduler)
  : option (list notice * Scheduler) :=
  if dirOk then
    let '(n1, s1) := loadSchedule s in
    let s2 := loadConfig s1 in
    Some ([NoteBanner] ++ n1 ++ initStaticDetection s2 ++ [NoteReady], s2)
  else None.

(** ** Commands *)

(** [forceRegenerateSchedule()]. *)
Definition forceRegenerateSchedule (e : GenEnv) (s : Scheduler)
  : bool * list notice * Scheduler :=
  let '(success, s1) := generateSchedule true e s in
  (success,
   [NoteForcing; if success then NoteRegenerated else NoteRegenerateFailed],
   s1).

(** [startPlayback()] up to the call of [playbackLoop()]: the boolean tells
    whether the loop is entered. *)
Definition startPlayback (e : GenEnv) (s : Scheduler)
  : bool * list notice * Scheduler :=
  let '(scheduleReady, s1) := generateSchedule false e s in
  if negb scheduleReady then (false, [NoteStartingPlayback; NoteCannotStart], s1)
  else (true, [NoteStartingPlayback], s1).

(** What one round of the loop does besides calling the scheduler. *)
Inductive loop_step :=
  | Waited (ms : Z)
  | Printed (n : notice).

(** One round of [playbackLoop()]: the value [playNextVideo] returned when
    it was called, the waits and lines of the round, the new state. *)
Definition playbackLoop_round (ok : bool) (s : Scheduler)
  : option (option string) * list loop_step * Scheduler :=
  if negb (isStaticActive s) then
    let '(video, s1) := playNextVideo ok s in
    match video_truthy video with
    | Some _ =>
        (Some video,
         [Waited 5000; Printed (NoteVideoEnded (videoTransitionDelay (config s1)));
          Waited (videoTransitionDelay (config s1))],
         s1)
    | None => (Some video, [], s1)
    end
  else (None, [Waited 1000], s).

(** Static reports that arrive while a round is waiting. *)
Definition deliver (reports : list Q) (s : Scheduler) : Scheduler :=
  foldl (fun st level => onStaticDetected level st) s reports.

(** A finite run of [playbackLoop()]: each round comes with the outcome of
    its write and the reports that arrive before the next round.  The
    result lists the values [playNextVideo] returned, the steps taken and
    the final state. *)
Fixpoint playbackLoop (rounds : list (bool * list Q)) (s : Scheduler)
  : list (option string) * list loop_step * Scheduler :=
  match rounds with
  | [] => ([], [], s)
  | (ok, reports) :: rounds' =>
      let '(called, steps, s1) := playbackLoop_round ok s in
      let s2 := deliver reports s1 in
      let '(videos', steps', s3) := playbackLoop rounds' s2 in
      (match called with
       | Some v => v :: videos'
       | None => videos'
       end, steps ++ steps', s3)
  end.

(** [onStaticDetected(level)] called WITHOUT [await]: what has run when
    the call returns to its caller.  The function is [async]; it runs up to
    its [await this.stopCurrentVideo()] (the body of [stopCurrentVideo] has
    no [await] of its own and runs to its end inside that call) and is
    suspended there.  The statement after the [await], which arms the
    persistence timer, is left as a pending job; the boolean tells whether
    there is one.  The other branches have no [await] and run to their
    end. *)
Definition onStaticDetected_begin (level : Q) (s : Scheduler)
  : Scheduler * bool :=
  if exceeds level (staticDetectionThreshold (config s)) then
    if negb (isStaticActive s) then
      let s1 := log (LogStaticDetected level) s in
      let s2 := mkScheduler (schedule s1) (config s1) true (staticTimer s1)
                            (videoTimer s1) (scheduleFile s1) (configFile s1)
                            (trace s1) in
      (stopCurrentVideo s2, true)
    else (s, false)
  else
    if isStaticActive s then
      let s1 := log LogStaticCleared s in
      let s2 := mkScheduler (schedule s1) (config s1) false (staticTimer s1)
                            (videoTimer s1) (scheduleFile s1) (configFile s1)
                            (trace s1) in
      (match staticTimer s2 with
       | Some _ =>
           mkScheduler (schedule s2) (config s2) (isStaticActive s2) None
                       (videoTimer s2) (scheduleFile s2) (configFile s2)
                       (StaticTimerCleared :: trace s2)
       | None => s2
       end, false)
    else (s, false).

(** The pending job of [onStaticDetected]: the statement after the
    [await], [this.staticTimer = setTimeout(..., maxStaticDuration)], run
    on the state the scheduler has by then. *)
Definition onStaticDetected_resume (s : Scheduler) : Scheduler :=
  mkScheduler (schedule s) (config s) (isStaticActive s)
              (Some (mkTimer (maxStaticDuration (config s))))
              (videoTimer s) (scheduleFile s) (configFile s)
              (StaticTimerArmed (maxStaticDuration (config s)) :: trace s).

(** [simulateStatic(level, duration)]: the line printed, and the state and
    the pending job when the call returns.  The report is made without
    [await], so the call returns while [onStaticDetected] is suspended.
    The callback registered with [setTimeout(..., duration)] is
    [simulateStatic_timer]: it reports level 0. *)
Definition simulateStatic (level : Q) (duration : Z) (s : Scheduler)
  : list notice * (Scheduler * bool) :=
  ([NoteSimulating level duration], onStaticDetected_begin level s).

Definition simulateStatic_timer (s : Scheduler) : Scheduler :=
  onStaticDetected 0 s.

(** [testTimezoneSync()] on a host in zone [tza]: the lines printed, with
    the seed of each of the three test dates (2025-10-06T00:00:00Z,
    2025-10-06T12:00:00Z, 2025-10-07T00:00:00Z). *)
Definition testDates : list Z :=
  [1759708800000; 1759752000000; 1759795200000].

Definition testTimezoneSync (cfg : Config) (tza : Z) : list notice :=
  [NoteTimezoneTest]
  ++ map (fun date => NoteSeedOf date (generateUTCSeed cfg tza date)) testDates
  ++ [NoteTimezoneTestDone].

(** The [k] items served from cursor [c] on, going round the permutation. *)
Definition cycle_from (order : list (option string)) (c : Z) (k : nat)
  : list (option string) :=
  map (fun i => default None
                  (order !! Z.to_nat ((c + Z.of_nat i) mod Z.of_nat (length order))))
      (seq 0 k).

(** * Properties *)

(** ** Arrays and the shuffle *)

Section ArrayFacts.

Context {A : Type}.
Implicit Types (l : list (option A)) (o : jsarray A) (h : gmap loc (jsarray A)).

Lemma insert_head_perm l j (x y : option A) :
  l !! j = Some y → y :: <[j := x]> l ≡ₚ x :: l.
Proof.
  revert j. induction l as [|a l IH]; intros [|j] Hj; simplify_eq/=.
  - apply Permutation_swap.
  - rewrite (Permutation_swap a y), (IH _ Hj). apply Permutation_swap.
Qed.

(** Exchanging two slots of a list permutes it. *)
Lemma swap_perm l i j (x y : option A) :
  l !! i = Some x → l !! j = Some y →
  <[j := x]> (<[i := y]> l) ≡ₚ l.
Proof.
  revert i j. induction l as [|a l IH]; intros [|i] [|j] Hi Hj; simplify_eq/=.
  - reflexivity.
  - by apply insert_head_perm.
  - by apply insert_head_perm.
  - by rewrite (IH _ _ Hi Hj).
Qed.

Lemma obj_get_in_range o (n : nat) (x : option A) :
  elems o !! n = Some x → obj_get o (Z.of_nat n) = x.
Proof.
  intros Hn. unfold obj_get.
  destruct (Z.leb_spec 0 (Z.of_nat n)); [|lia].
  by rewrite Nat2Z.id, Hn.
Qed.

Lemma obj_set_in_range o (n : nat) (v : option A) :
  (n < length (elems o))%nat →
  obj_set o (Z.of_nat n) v = mkArray (<[n := v]> (elems o)) (props o).
Proof.
  intros Hn. unfold obj_set.
  destruct (Z.leb_spec 0 (Z.of_nat n)); [|lia].
  rewrite Nat2Z.id. by destruct (Nat.ltb_spec n (length (elems o))); [|lia].
Qed.

Lemma heap_set_other h r a i (v : option A) :
  a ≠ r → heap_set h r i v !! a = h !! a.
Proof. intros Hne. unfold heap_set. by rewrite lookup_alter_ne. Qed.

Lemma heap_set_same h r i (v : option A) o :
  h !! r = Some o → heap_set h r i v !! r = Some (obj_set o i v).
Proof. intros Hr. unfold heap_set. by rewrite lookup_alter_eq, Hr. Qed.

(** The loop writes through [shuffled] only. *)
Lemma fisher_yates_frame {S} (random : S → Z * S) pick n st h r a :
  a ≠ r → fisher_yates random pick n st h r !! a = h !! a.
Proof.
  intros Hne. revert st h. induction n as [|n IH]; intros st h; [done|].
  cbn [fisher_yates]. destruct (random st) as [num st'].
  rewrite IH. by rewrite !heap_set_other.
Qed.

(** A generator below its denominator picks an index below
    [currentIndex]. *)
Lemma floor_product_in_range num den (n : nat) :
  0 < den → 0 ≤ num < den →
  0 ≤ floor_product den num (Datatypes.S n) < Z.of_nat (Datatypes.S n).
Proof.
  intros Hden Hnum. unfold floor_product. split.
  - apply Z.div_pos; lia.
  - apply Z.div_lt_upper_bound; nia.
Qed.

(** Whatever the generator and the rounding of the index, as long as every
    index picked lies in [0, currentIndex) the loop permutes the elements:
    each round exchanges two slots.  [P] is an invariant of the generator
    state. *)
Lemma fisher_yates_perm {S} (random : S → Z * S) (pick : Z → nat → Z)
    (P : S → Prop) :
  (∀ st n, P st →
     0 ≤ pick (fst (random st)) (Datatypes.S n) < Z.of_nat (Datatypes.S n)
     ∧ P (snd (random st))) →
  ∀ n st h r o,
    P st → h !! r = Some o → (n ≤ length (elems o))%nat →
    ∃ o', fisher_yates random pick n st h r !! r = Some o'
          ∧ elems o' ≡ₚ elems o ∧ props o' = props o.
Proof.
  intros Hgen. induction n as [|n IH]; intros st h r o HP Hr Hn.
  { exists o. by cbn. }
  cbn [fisher_yates]. destruct (Hgen st n HP) as [Hidx HP'].
  destruct (random st) as [num st']; cbn [fst snd] in *.
  set (ri := pick num (Datatypes.S n)) in *.
  assert (ri = Z.of_nat (Z.to_nat ri)) as Hri by lia.
  destruct (lookup_lt_is_Some_2 (elems o) (Z.to_nat ri)) as [x Hx]; [lia|].
  destruct (lookup_lt_is_Some_2 (elems o) n) as [y Hy]; [lia|].
  unfold heap_get at 1 2. rewrite Hr.
  rewrite (obj_get_in_range o n y Hy).
  rewrite Hri, (obj_get_in_range o _ x Hx).
  set (o1 := obj_set o (Z.of_nat n) x).
  set (o2 := obj_set o1 (Z.of_nat (Z.to_nat ri)) y).
  assert (o1 = mkArray (<[n := x]> (elems o)) (props o)) as Ho1.
  { apply obj_set_in_range. lia. }
  assert (o2 = mkArray (<[Z.to_nat ri := y]> (<[n := x]> (elems o))) (props o))
    as Ho2.
  { unfold o2. rewrite obj_set_in_range; rewrite Ho1; cbn; [done|].
    rewrite length_insert. lia. }
  destruct (IH st' (heap_set (heap_set h r (Z.of_nat n) x) r
                             (Z.of_nat (Z.to_nat ri)) y) r o2)
    as (o' & Ho' & Hperm & Hprops); [done| | |].
  { erewrite heap_set_same; [done|]. by apply heap_set_same. }
  { rewrite Ho2. cbn. rewrite !length_insert. lia. }
  exists o'. split; [done|]. rewrite Hperm, Hprops, Ho2. cbn. split; [|done].
  by apply swap_perm.
Qed.

Lemma seeded_random_in_range (seed : Z) (n : nat) :
  0 ≤ seed →
  0 ≤ floor_product 233280 (fst (seeded_random seed)) (Datatypes.S n)
    < Z.of_nat (Datatypes.S n)
  ∧ 0 ≤ snd (seeded_random seed).
Proof.
  intros Hs.
  assert (0 ≤ fst (seeded_random seed) < 233280) as Hnum.
  { unfold seeded_random. cbn [fst].
    pose proof (Z.rem_bound_pos (seed * 9301 + 49297) 233280). lia. }
  split; [apply floor_product_in_range; [lia|done]|].
  unfold seeded_random in *. cbn [fst snd] in *. lia.
Qed.

Lemma obj_set_length o (i : Z) (v : option A) :
  i < Z.of_nat (length (elems o)) →
  length (elems (obj_set o i v)) = length (elems o).
Proof.
  intros Hi. unfold obj_set. destruct (0 <=? i) eqn:Hsign; [|done].
  apply Z.leb_le in Hsign.
  destruct (Nat.ltb_spec (Z.to_nat i) (length (elems o))); [|lia].
  cbn. apply length_insert.
Qed.

(** With every index picked below [currentIndex], negative ones included,
    the loop keeps the length of the array. *)
Lemma fisher_yates_length {S} (random : S → Z * S) (pick : Z → nat → Z) :
  (∀ st n, pick (fst (random st)) (Datatypes.S n) < Z.of_nat (Datatypes.S n)) →
  ∀ n st h r o,
    h !! r = Some o → (n ≤ length (elems o))%nat →
    ∃ o', fisher_yates random pick n st h r !! r = Some o'
          ∧ length (elems o') = length (elems o).
Proof.
  intros Hgen. induction n as [|n IH]; intros st h r o Hr Hn.
  { exists o. by cbn. }
  cbn [fisher_yates]. pose proof (Hgen st n) as Hidx.
  destruct (random st) as [num st']; cbn [fst snd] in *.
  set (ri := pick num (Datatypes.S n)) in *.
  set (x := heap_get h r ri). set (y := heap_get h r (Z.of_nat n)).
  set (o1 := obj_set o (Z.of_nat n) x).
  assert (length (elems o1) = length (elems o)) as Hl1.
  { apply obj_set_length. lia. }
  set (o2 := obj_set o1 ri y).
  assert (length (elems o2) = length (elems o)) as Hl2.
  { unfold o2. rewrite obj_set_length; [done|]. lia. }
  destruct (IH st' (heap_set (heap_set h r (Z.of_nat n) x) r ri y) r o2)
    as (o' & Ho' & Hlen).
  { erewrite heap_set_same; [done|]. by apply heap_set_same. }
  { lia. }
  exists o'. split; [done|]. lia.
Qed.

(** The loop never frees the array it works on. *)
Lemma fisher_yates_allocated {S} (random : S → Z * S) pick n st h r o :
  h !! r = Some o →
  ∃ o', fisher_yates random pick n st h r !! r = Some o'.
Proof.
  revert st h o. induction n as [|n IH]; intros st h o Hr; [by exists o|].
  cbn [fisher_yates]. destruct (random st) as [num st'].
  eapply IH. erewrite heap_set_same; [done|]. by apply heap_set_same.
Qed.

Lemma seeded_random_below (seed : Z) (n : nat) :
  floor_product 233280 (fst (seeded_random seed)) (Datatypes.S n)
  < Z.of_nat (Datatypes.S n).
Proof.
  unfold seeded_random, floor_product. cbn [fst].
  pose proof (Z.rem_bound_abs (seed * 9301 + 49297) 233280 ltac:(lia)).
  apply Z.div_lt_upper_bound; [lia|]. nia.
Qed.

End ArrayFacts.

(** The permutation property, on the seeds for which the code has it.  For
    every array on the heap and every NON-NEGATIVE integer seed whose first generator step stays below 2^53
    (where the arithmetic on doubles is that on integers; every later state
    is below 233280), [shuffleArray] returns an array whose elements are a
    permutation of the elements of its argument: same length, same elements
    with the same multiplicities (so sorting both gives the same list). *)
Theorem shuffleArray_permutation {A : Type} (mathRandom : nat → Z)
    (h : gmap loc (jsarray A)) (array : loc) (o : jsarray A) (seed : Z) :
  h !! array = Some o → 0 ≤ seed → seed * 9301 + 49297 < 2 ^ 53 →
  ∃ h' r o',
    shuffleArray mathRandom h array (Some seed) = Some (h', r)
    ∧ h' !! r = Some o'
    ∧ elems o' ≡ₚ elems o
    ∧ length (elems o') = length (elems o).
Proof.
  intros Ha Hseed _. unfold shuffleArray. rewrite Ha.
  set (r := fresh (dom h)).
  set (h0 := <[r := mkArray (elems o) ∅]> h).
  destruct (fisher_yates_perm seeded_random (floor_product 233280)
              (fun s => 0 ≤ s) seeded_random_in_range
              (length (elems o)) seed h0 r (mkArray (elems o) ∅))
    as (o' & Ho' & Hperm & _); [done| |done|].
  { unfold h0. by rewrite lookup_insert_eq. }
  exists (fisher_yates seeded_random (floor_product 233280)
                       (length (elems o)) seed h0 r), r, o'.
  repeat split; [done|done|]. by rewrite Hperm.
Qed.

Lemma shuffleArray_permutation_witness :
  ∃ h' r o',
    shuffleArray (fun _ => 0) {[ 1%positive := mkArray [Some "a"; Some "b"; Some "c"] ∅ ]}
                 1%positive (Some 42) = Some (h', r)
    ∧ h' !! r = Some o'
    ∧ elems o' ≡ₚ [Some "a"; Some "b"; Some "c"]
    ∧ length (elems o') = 3%nat.
Proof.
  apply (shuffleArray_permutation (fun _ => 0)
           {[ 1%positive := mkArray [Some "a"; Some "b"; Some "c"] ∅ ]}
           1%positive (mkArray [Some "a"; Some "b"; Some "c"] ∅) 42).
  - reflexivity.
  - lia.
  - lia.
Defined.

(** A negative seed breaks the shuffle: with seed -6 the generator yields
    -6509/233280, the computed index is -1, and the exchange writes
    [undefined] over the only element of the array ["a"]. *)
Lemma shuffleArray_negative_seed_drops_item :
  ∃ h' r o',
    shuffleArray (fun _ => 0) {[ 1%positive := mkArray [Some "a"] ∅ ]}
                 1%positive (Some (-6)) = Some (h', r)
    ∧ h' !! r = Some o'
    ∧ elems o' = [None]
    ∧ ¬ (elems o' ≡ₚ [Some "a"]).
Proof.
  eexists _, _, _. split; [vm_compute; reflexivity|].
  split; [vm_compute; reflexivity|]. split; [reflexivity|].
  cbn. intros Hp. apply Permutation_singleton_r in Hp. discriminate.
Qed.

(** C2 (the code departs from it).  The seed -31, which [generateUTCSeed]
    returns for 1970-01-01T00:00:00Z on a host two hours east of UTC, is a
    non-null integer seed under which [shuffleArray] does not return a
    permutation: the generator yields -5754/233280, the index computed is
    -1, and the exchange writes [undefined] over the only element of
    ["a"].  The array returned, [[undefined]], has lost the item. *)
Theorem shuffleArray_generated_negative_seed_loses_item :
  generateUTCSeed default_config 7200000 0 = -31
  ∧ seeded_random (-31) = (-5754, -5754)
  ∧ floor_product 233280 (-5754) 1 = -1
  ∧ ∃ h' r o',
      shuffleArray (fun _ => 0) {[ 1%positive := mkArray [Some "a"] ∅ ]}
                   1%positive (Some (-31)) = Some (h', r)
      ∧ h' !! r = Some o'
      ∧ elems o' = [None]
      ∧ ¬ (elems o' ≡ₚ [Some "a"]).
Proof.
  split; [reflexivity|]. split; [reflexivity|]. split; [reflexivity|].
  eexists _, _, _. split; [vm_compute; reflexivity|].
  split; [vm_compute; reflexivity|]. split; [reflexivity|].
  cbn. intros Hp. apply Permutation_singleton_r in Hp. discriminate.
Qed.

(** C10.  [shuffleArray] returns a new array: its reference was not
    allocated before the call and holds an array after it (of the length of
    the argument when a seed is given), it is the only allocation of the
    call, and every array that existed before the call, the argument
    included, is the same after it.  This holds for every seed, [null]
    included, and whatever [Math.random] draws. *)
Theorem shuffleArray_leaves_input_unchanged {A : Type} (mathRandom : nat → Z)
    (h : gmap loc (jsarray A)) (array : loc) (o : jsarray A) (seed : option Z) :
  h !! array = Some o →
  ∃ h' r o',
    shuffleArray mathRandom h array seed = Some (h', r)
    ∧ h !! r = None
    ∧ h' !! r = Some o'
    ∧ (is_Some seed → length (elems o') = length (elems o))
    ∧ dom h' = {[ r ]} ∪ dom h
    ∧ r ≠ array
    ∧ h' !! array = Some o
    ∧ ∀ a, a ≠ r → h' !! a = h !! a.
Proof.
  intros Ha.
  set (r := fresh (dom h)).
  assert (h !! r = None) as Hfresh.
  { apply not_elem_of_dom. apply is_fresh. }
  assert (r ≠ array) as Hne by congruence.
  set (h0 := <[r := mkArray (elems o) ∅]> h).
  assert (h0 !! r = Some (mkArray (elems o) ∅)) as Hr0
    by apply lookup_insert_eq.
  assert (∃ h', shuffleArray mathRandom h array seed = Some (h', r)
                ∧ (∀ a, a ≠ r → h' !! a = h !! a)
                ∧ ∃ o', h' !! r = Some o'
                        ∧ (is_Some seed → length (elems o') = length (elems o)))
    as (h' & Hrun & Hframe & o' & Ho' & Hlen).
  { unfold shuffleArray. rewrite Ha. fold r. fold h0.
    destruct seed as [seed|].
    - destruct (fisher_yates_length seeded_random (floor_product 233280)
                  seeded_random_below (length (elems o)) seed h0 r
                  (mkArray (elems o) ∅) Hr0 ltac:(done))
        as (o' & Ho' & Hlen).
      eexists. split; [reflexivity|]. split.
      + intros a Har. rewrite fisher_yates_frame by done.
        unfold h0. by rewrite lookup_insert_ne.
      + by exists o'.
    - destruct (fisher_yates_allocated (engine_random mathRandom)
                  (floor_product (2 ^ 53)) (length (elems o)) O h0 r
                  (mkArray (elems o) ∅) Hr0) as (o' & Ho').
      eexists. split; [reflexivity|]. split.
      + intros a Har. rewrite fisher_yates_frame by done.
        unfold h0. by rewrite lookup_insert_ne.
      + exists o'. split; [done|]. by intros [? ?]. }
  exists h', r, o'. split_and!; try done.
  - apply set_eq. intros a.
    rewrite elem_of_union, elem_of_singleton, !elem_of_dom.
    destruct (decide (a = r)) as [->|Har].
    + rewrite Ho'. split; [by left|by eexists].
    + rewrite (Hframe a Har). split; [by right|by intros [?|?]].
  - by rewrite (Hframe array), Ha.
Qed.

Lemma shuffleArray_leaves_input_unchanged_witness :
  ∃ h' r o',
    shuffleArray (fun _ => 0) {[ 1%positive := mkArray [Some "a"; Some "b"] ∅ ]}
                 1%positive (Some (-6)) = Some (h', r)
    ∧ ({[ 1%positive := mkArray [Some "a"; Some "b"] ∅ ]} : gmap loc (jsarray string)) !! r = None
    ∧ h' !! r = Some o'
    ∧ (is_Some (Some (-6)) → length (elems o') = 2%nat)
    ∧ dom h' = {[ r ]} ∪ dom ({[ 1%positive := mkArray [Some "a"; Some "b"] ∅ ]} : gmap loc (jsarray string))
    ∧ r ≠ 1%positive
    ∧ h' !! 1%positive = Some (mkArray [Some "a"; Some "b"] ∅)
    ∧ ∀ a, a ≠ r → h' !! a = ({[ 1%positive := mkArray [Some "a"; Some "b"] ∅ ]} : gmap loc (jsarray string)) !! a.
Proof.
  apply (shuffleArray_leaves_input_unchanged (fun _ => 0)
           {[ 1%positive := mkArray [Some "a"; Some "b"] ∅ ]} 1%positive
           (mkArray [Some "a"; Some "b"] ∅) (Some (-6))).
  reflexivity.
Defined.

Lemma shuffled_items_perm {A : Type} (items : list (option A)) (seed : Z) :
  0 ≤ seed → shuffled_items items seed ≡ₚ items.
Proof.
  intros Hseed. unfold shuffled_items, shuffleArray.
  rewrite lookup_singleton_eq. cbn [elems].
  set (h := {[ 1%positive := mkArray items ∅ ]} : gmap loc (jsarray A)).
  set (r := fresh (dom h)).
  destruct (fisher_yates_perm seeded_random (floor_product 233280)
              (fun s => 0 ≤ s) seeded_random_in_range
              (length items) seed (<[r := mkArray items ∅]> h) r
              (mkArray items ∅))
    as (o' & Ho' & Hperm & _); [done| |done|].
  { by rewrite lookup_insert_eq. }
  by rewrite Ho'.
Qed.

(** The shuffle keeps the number of items, for every seed. *)
Lemma shuffled_items_length {A : Type} (items : list (option A)) (seed : Z) :
  length (shuffled_items items seed) = length items.
Proof.
  unfold shuffled_items, shuffleArray.
  rewrite lookup_singleton_eq. cbn [elems].
  set (h := {[ 1%positive := mkArray items ∅ ]} : gmap loc (jsarray A)).
  set (r := fresh (dom h)).
  destruct (fisher_yates_length seeded_random (floor_product 233280)
              seeded_random_below
              (length items) seed (<[r := mkArray items ∅]> h) r
              (mkArray items ∅))
    as (o' & Ho' & Hlen); [by rewrite lookup_insert_eq|done|].
  by rewrite Ho'.
Qed.

(** ** Seed generator *)

(** C1 (the code departs from it).  The same instant, 2025-10-06T12:00:00Z,
    gives seed 631377 on a host whose zone is UTC and seed 631346 on a host
    two hours east of UTC: the UTC date components are handed to the
    local-time [Date] constructor, so the day index fed to the seed formula
    is 20367 on the first host and 20366 on the second. *)
Theorem generateUTCSeed_depends_on_host_zone :
  JSDate.Day 1759752000000 = 20367
  ∧ generateUTCSeed default_config 0 1759752000000 = 631377
  ∧ generateUTCSeed default_config 7200000 1759752000000 = 631346
  ∧ generateUTCSeed default_config 0 1759752000000
    ≠ generateUTCSeed default_config 7200000 1759752000000.
Proof. repeat split; try reflexivity. vm_compute. discriminate. Qed.

(** ** Playback *)

Lemma order_at_lookup (sch : Schedule) (n : nat) :
  order_at sch (Z.of_nat n) = default None (shuffledOrder sch !! n).
Proof.
  unfold order_at. destruct (Z.leb_spec 0 (Z.of_nat n)); [|lia].
  by rewrite Nat2Z.id.
Qed.

Lemma saveSchedule_fields ok s :
  schedule (saveSchedule ok s) = schedule s
  ∧ config (saveSchedule ok s) = config s
  ∧ isStaticActive (saveSchedule ok s) = isStaticActive s
  ∧ staticTimer (saveSchedule ok s) = staticTimer s
  ∧ videoTimer (saveSchedule ok s) = videoTimer s.
Proof. by destruct ok. Qed.

(** The state a serving call of [playNextVideo] leaves behind. *)
Lemma playNextVideo_serves ok s :
  isStaticActive s = false →
  shuffledOrder (schedule s) ≠ [] →
  let sch := schedule s in
  let len := Z.of_nat (length (shuffledOrder sch)) in
  fst (playNextVideo ok s) = order_at sch (currentIndex sch)
  ∧ schedule (snd (playNextVideo ok s))
    = mkSchedule (generated sch) (shuffledOrder sch)
                 (Z.rem (currentIndex sch + 1) len) (totalPlayed sch + 1)
                 (staticDetected sch) (order_at sch (currentIndex sch))
  ∧ config (snd (playNextVideo ok s)) = config s
  ∧ isStaticActive (snd (playNextVideo ok s)) = false.
Proof.
  intros Hclear Hne. unfold playNextVideo. rewrite Hclear.
  destruct (shuffledOrder (schedule s)) as [|v vs] eqn:Hord; [done|].
  cbn [length Nat.eqb fst snd].
  destruct (Z.rem _ _ =? 0), ok; cbn; rewrite ?Hord; by rewrite ?Hclear.
Qed.

(** C4 (as amended).  In every state whose interference flag is clear,
    whose permutation is not empty and whose cursor lies within it, a call
    of [playNextVideo] returns [permutation[cursor]], makes it the current
    video, adds exactly one to the play count and moves the cursor to
    [(cursor + 1) mod len]; the permutation, its generation time and the
    interference flag are as before.  In every state whose interference flag
    is set, whatever the permutation, the cursor and the outcome a write
    would have, the call returns [null], logs the skip and changes nothing
    else: schedule (cursor, play count and current video included),
    configuration, flag, timers and schedule file are as before. *)
Theorem playNextVideo_advances (ok : bool) (s : Scheduler) :
  let sch := schedule s in
  let s' := snd (playNextVideo ok s) in
  (isStaticActive s = false →
   shuffledOrder sch ≠ [] →
   0 ≤ currentIndex sch < Z.of_nat (length (shuffledOrder sch)) →
   shuffledOrder sch !! Z.to_nat (currentIndex sch) = Some (fst (playNextVideo ok s))
   ∧ currentVideo (schedule s') = fst (playNextVideo ok s)
   ∧ totalPlayed (schedule s') = totalPlayed sch + 1
   ∧ currentIndex (schedule s')
     = (currentIndex sch + 1) mod Z.of_nat (length (shuffledOrder sch))
   ∧ shuffledOrder (schedule s') = shuffledOrder sch
   ∧ generated (schedule s') = generated sch
   ∧ isStaticActive s' = false)
  ∧ (isStaticActive s = true →
     fst (playNextVideo ok s) = None
     ∧ schedule s' = sch
     ∧ currentIndex (schedule s') = currentIndex sch
     ∧ totalPlayed (schedule s') = totalPlayed sch
     ∧ currentVideo (schedule s') = currentVideo sch
     ∧ config s' = config s
     ∧ isStaticActive s' = true
     ∧ staticTimer s' = staticTimer s
     ∧ videoTimer s' = videoTimer s
     ∧ scheduleFile s' = scheduleFile s
     ∧ trace s' = LogStaticSkip :: trace s).
Proof.
  intros sch s'. split.
  - intros Hclear Hne Hrange.
    destruct (playNextVideo_serves ok s Hclear Hne) as (Hret & Hsch & _ & Hflag).
    subst s' sch. rewrite Hsch, Hret, Hflag. cbn.
    repeat split; try done.
    + unfold order_at.
      destruct (Z.leb_spec 0 (currentIndex (schedule s))); [|lia].
      destruct (lookup_lt_is_Some_2 (shuffledOrder (schedule s))
                  (Z.to_nat (currentIndex (schedule s)))) as [x Hx]; [lia|].
      by rewrite Hx.
    + apply Z.rem_mod_nonneg; lia.
  - intros Hset. subst s' sch. unfold playNextVideo. rewrite Hset. cbn.
    by rewrite Hset.
Qed.

Lemma playNextVideo_advances_witness :
  (let s := demo_scheduler 2 7 false in
   let sch := schedule s in
   let s' := snd (playNextVideo true s) in
   shuffledOrder sch !! Z.to_nat (currentIndex sch) = Some (fst (playNextVideo true s))
   ∧ currentVideo (schedule s') = fst (playNextVideo true s)
   ∧ totalPlayed (schedule s') = totalPlayed sch + 1
   ∧ currentIndex (schedule s')
     = (currentIndex sch + 1) mod Z.of_nat (length (shuffledOrder sch))
   ∧ shuffledOrder (schedule s') = shuffledOrder sch
   ∧ generated (schedule s') = generated sch
   ∧ isStaticActive s' = false)
  ∧ (let s := demo_scheduler 2 7 true in
     let sch := schedule s in
     let s' := snd (playNextVideo true s) in
     fst (playNextVideo true s) = None
     ∧ schedule s' = sch
     ∧ currentIndex (schedule s') = currentIndex sch
     ∧ totalPlayed (schedule s') = totalPlayed sch
     ∧ currentVideo (schedule s') = currentVideo sch
     ∧ config s' = config s
     ∧ isStaticActive s' = true
     ∧ staticTimer s' = staticTimer s
     ∧ videoTimer s' = videoTimer s
     ∧ scheduleFile s' = scheduleFile s
     ∧ trace s' = LogStaticSkip :: trace s).
Proof.
  split.
  - apply (playNextVideo_advances true (demo_scheduler 2 7 false)).
    + reflexivity.
    + discriminate.
    + simpl. lia.
  - apply (playNextVideo_advances true (demo_scheduler 2 7 true)).
    reflexivity.
Defined.

(** C4, as stated, fails: [playNextVideo] does gate on the interference
    flag.  With the flag set and a permutation of three videos it returns
    [null] and leaves cursor, play count and current video as they were. *)
Lemma playNextVideo_gated_by_static_flag :
  fst (playNextVideo true (demo_scheduler 0 0 true)) = None
  ∧ schedule (snd (playNextVideo true (demo_scheduler 0 0 true)))
    = schedule (demo_scheduler 0 0 true)
  ∧ shuffledOrder (schedule (demo_scheduler 0 0 true)) !! 0%nat = Some (Some "a.mp4")
  ∧ totalPlayed (schedule (snd (playNextVideo true (demo_scheduler 0 0 true)))) ≠ 0 + 1.
Proof. repeat split; try reflexivity. simpl. lia. Qed.

Lemma log_trace e s : trace (log e s) = e :: trace s.
Proof. done. Qed.

Lemma saveSchedule_trace ok s :
  ∃ e, trace (saveSchedule ok s) = e :: trace s ∧ e ≠ LogCycleComplete
       (length (shuffledOrder (schedule s))).
Proof. destruct ok; eexists; (split; [reflexivity|discriminate]). Qed.

(** The trace of a serving call: what it adds, and whether the
    cycle-complete line is among it. *)
Lemma playNextVideo_trace ok s :
  isStaticActive s = false →
  shuffledOrder (schedule s) ≠ [] →
  let len := length (shuffledOrder (schedule s)) in
  ∃ new, trace (snd (playNextVideo ok s)) = new ++ trace s
         ∧ (Z.rem (currentIndex (schedule s) + 1) (Z.of_nat len) = 0
            → LogCycleComplete len ∈ new).
Proof.
  intros Hclear Hne. unfold playNextVideo. rewrite Hclear.
  destruct (shuffledOrder (schedule s)) as [|v vs] eqn:Hord; [done|].
  cbn [length Nat.eqb fst snd].
  destruct (Z.eqb_spec (Z.rem (currentIndex (schedule s) + 1)
                              (Z.of_nat (S (length vs)))) 0) as [Hz|Hz].
  - destruct ok; cbn; eexists [_; _; _]; (split; [reflexivity|]);
      intros _; set_solver.
  - destruct ok; cbn; eexists [_; _]; (split; [reflexivity|]); done.
Qed.

(** [m] consecutive serving calls from cursor [k], with [k + m] at most the
    length of the permutation. *)
Lemma play_many_segment (oks : list bool) :
  ∀ (k : nat) (s : Scheduler),
    isStaticActive s = false →
    currentIndex (schedule s) = Z.of_nat k →
    (k + length oks ≤ length (shuffledOrder (schedule s)))%nat →
    let order := shuffledOrder (schedule s) in
    let s' := snd (play_many oks s) in
    fst (play_many oks s) = take (length oks) (drop k order)
    ∧ shuffledOrder (schedule s') = order
    ∧ generated (schedule s') = generated (schedule s)
    ∧ isStaticActive s' = false
    ∧ totalPlayed (schedule s')
      = totalPlayed (schedule s) + Z.of_nat (length oks)
    ∧ currentIndex (schedule s')
      = (if (k + length oks =? length order)%nat && negb (length oks =? 0)%nat
         then 0 else Z.of_nat (k + length oks))
    ∧ ∃ new, trace s' = new ++ trace s
             ∧ ((k + length oks = length order)%nat → oks ≠ []
                → LogCycleComplete (length order) ∈ new).
Proof.
  induction oks as [|ok oks IH]; intros k s Hclear Hk Hlen order s'.
  { subst s' order. cbn. rewrite Nat.add_0_r, andb_false_r, take_0.
    split_and!; try done; try lia.
    exists (@nil event). split; [done|]. intros _ Hnil. by destruct Hnil. }
  cbn [length] in Hlen.
  assert (shuffledOrder (schedule s) ≠ []) as Hne.
  { intros E. rewrite E in Hlen. cbn in Hlen. lia. }
  destruct (playNextVideo_serves ok s Hclear Hne) as (Hret & Hsch & _ & Hflag).
  destruct (playNextVideo_trace ok s Hclear Hne) as (new1 & Htr1 & Hcyc1).
  subst s'. cbn [play_many].
  destruct (playNextVideo ok s) as [v s1] eqn:Hplay. cbn [fst snd] in *.
  destruct (lookup_lt_is_Some_2 order k) as [x Hx]; [subst order; lia|].
  assert (v = x) as ->.
  { rewrite Hret, Hk, order_at_lookup. fold order. by rewrite Hx. }
  assert (shuffledOrder (schedule s1) = order) as Hord1 by by rewrite Hsch.
  destruct (decide (S k = length order)) as [Hwrap|Hmore].
  - (* the cursor wraps: this was the last call of the segment *)
    assert (oks = []) as -> by (destruct oks; [done|subst order; cbn in Hlen; lia]).
    cbn [play_many fst snd length].
    assert (Z.rem (currentIndex (schedule s) + 1) (Z.of_nat (length order)) = 0)
      as Hrem.
    { rewrite Hk, <- Hwrap. replace (Z.of_nat k + 1) with (Z.of_nat (S k)) by lia.
      apply Z.rem_same. lia. }
    rewrite (drop_S _ _ _ Hx). cbn [take].
    rewrite Hsch. cbn. fold order. rewrite Hrem.
    replace (k + 1 =? length order)%nat with true
      by (symmetry; apply Nat.eqb_eq; lia).
    split_and!; try done.
    exists new1. split; [done|]. intros _ _. by apply Hcyc1.
  - (* the cursor moves on *)
    assert (currentIndex (schedule s1) = Z.of_nat (S k)) as Hk1.
    { rewrite Hsch. cbn. fold order. rewrite Hk.
      replace (Z.of_nat k + 1) with (Z.of_nat (S k)) by lia.
      apply Z.rem_small. subst order. lia. }
    destruct (IH (S k) s1 Hflag Hk1) as (Hvs & Ho & Hg & Hf & Htp & Hci & new & Htr & Hcyc).
    { rewrite Hord1. subst order. lia. }
    destruct (play_many oks s1) as [vs s2]. cbn [fst snd length] in *.
    rewrite Hord1 in Hvs, Ho, Hci, Hcyc.
    rewrite (drop_S _ _ _ Hx). cbn [take].
    replace (k + S (length oks))%nat with (S k + length oks)%nat by lia.
    split_and!.
    + by rewrite Hvs.
    + done.
    + by rewrite Hg, Hsch.
    + done.
    + rewrite Htp, Hsch. cbn [totalPlayed]. lia.
    + rewrite Hci.
      destruct (Nat.eqb_spec (S k + length oks) (length order)) as [E|E];
        cbn [andb]; [|done].
      destruct oks; [cbn in E; lia|done].
    + exists (new ++ new1). split; [by rewrite Htr, Htr1, app_assoc|].
      intros E _. destruct oks as [|ok' oks']; [cbn in E; lia|].
      apply elem_of_app. left. by apply Hcyc.
Qed.

(** C3 (as amended).  From cursor 0 and with the interference flag clear,
    [N] calls of [playNextVideo] on a permutation of length [N >= 1] return
    the items of the permutation, each once and in order; the cursor is back
    at 0, the cycle-complete line has been logged, the play count has grown
    by [N] and the next call returns [permutation[0]] again. *)
Theorem playNextVideo_full_cycle (oks : list bool) (ok : bool) (s : Scheduler) :
  isStaticActive s = false →
  currentIndex (schedule s) = 0 →
  (1 ≤ length (shuffledOrder (schedule s)))%nat →
  length oks = length (shuffledOrder (schedule s)) →
  let order := shuffledOrder (schedule s) in
  let s' := snd (play_many oks s) in
  fst (play_many oks s) = order
  ∧ currentIndex (schedule s') = 0
  ∧ shuffledOrder (schedule s') = order
  ∧ totalPlayed (schedule s') = totalPlayed (schedule s) + Z.of_nat (length order)
  ∧ (∃ new, trace s' = new ++ trace s ∧ LogCycleComplete (length order) ∈ new)
  ∧ Some (fst (playNextVideo ok s')) = order !! 0%nat.
Proof.
  intros Hclear Hk HN Hlen. cbv zeta.
  destruct (play_many_segment oks 0 s Hclear Hk) as
    (Hvs & Ho & _ & Hf & Htp & Hci & new & Htr & Hcyc); [lia|].
  rewrite Hlen in Hvs, Htp, Hci, Hcyc. cbn [Nat.add] in Hci, Hcyc.
  rewrite Nat.eqb_refl in Hci.
  destruct (Nat.eqb_spec (length (shuffledOrder (schedule s))) 0) as [E|_];
    [lia|]. cbn [andb negb] in Hci.
  rewrite drop_0, firstn_all in Hvs.
  split_and!; try done.
  - exists new. split; [done|]. apply Hcyc; [done|].
    intros ->. cbn in Hlen. lia.
  - assert (shuffledOrder (schedule (snd (play_many oks s))) ≠ []) as Hne.
    { rewrite Ho. intros E. rewrite E in HN. cbn in HN. lia. }
    destruct (playNextVideo_serves ok _ Hf Hne) as (Hret & _).
    rewrite Hret, Hci. unfold order_at. cbn. rewrite Ho.
    destruct (shuffledOrder (schedule s)); [cbn in HN; lia|done].
Qed.

Lemma playNextVideo_full_cycle_witness :
  let s := demo_scheduler 0 0 false in
  let order := shuffledOrder (schedule s) in
  let s' := snd (play_many [true; false; true] s) in
  fst (play_many [true; false; true] s) = order
  ∧ currentIndex (schedule s') = 0
  ∧ shuffledOrder (schedule s') = order
  ∧ totalPlayed (schedule s') = totalPlayed (schedule s) + Z.of_nat (length order)
  ∧ (∃ new, trace s' = new ++ trace s ∧ LogCycleComplete (length order) ∈ new)
  ∧ Some (fst (playNextVideo true s')) = order !! 0%nat.
Proof.
  apply (playNextVideo_full_cycle [true; false; true] true
           (demo_scheduler 0 0 false)).
  - reflexivity.
  - reflexivity.
  - simpl. lia.
  - reflexivity.
Defined.

(** C3, as stated, fails while the interference flag is set: three calls on
    a permutation of three videos with cursor 0 return [null] three times
    and the cursor does not move. *)
Lemma playNextVideo_cycle_blocked_by_static :
  fst (play_many [true; true; true] (demo_scheduler 0 0 true)) = [None; None; None]
  ∧ fst (play_many [true; true; true] (demo_scheduler 0 0 true))
    ≠ shuffledOrder (schedule (demo_scheduler 0 0 true))
  ∧ schedule (snd (play_many [true; true; true] (demo_scheduler 0 0 true)))
    = schedule (demo_scheduler 0 0 true).
Proof. repeat split; try reflexivity. discriminate. Qed.

(** ** Schedule generation *)

Lemma saveConfig_fields ok s :
  schedule (saveConfig ok s) = schedule s
  ∧ config (saveConfig ok s) = config s
  ∧ isStaticActive (saveConfig ok s) = isStaticActive s
  ∧ staticTimer (saveConfig ok s) = staticTimer s
  ∧ videoTimer (saveConfig ok s) = videoTimer s.
Proof. by destruct ok. Qed.

Lemma length_eqb_0 {T} (l : list T) : (length l =? 0)%nat = false ↔ l ≠ [].
Proof. by destruct l. Qed.

(** The state left by the regenerating branch. *)
Lemma generateSchedule_regenerates force e s :
  videos e ≠ [] →
  shouldRegenerate force e s = true →
  let seed := generateUTCSeed (config s) (hostZone e) (seedInstant e) in
  let c := config s in
  fst (generateSchedule force e s) = true
  ∧ schedule (snd (generateSchedule force e s))
    = mkSchedule (Some (now e)) (shuffled_items (Some <$> videos e) seed) 0 0
                 (staticDetected (schedule s)) (currentVideo (schedule s))
  ∧ config (snd (generateSchedule force e s))
    = mkConfig (Some seed) (scheduleRebuildInterval c)
               (staticDetectionThreshold c) (maxStaticDuration c)
               (videoTransitionDelay c) (regenerateOnBuild c)
               (timezoneMode c) (dailySeedReset c)
  ∧ isStaticActive (snd (generateSchedule force e s)) = isStaticActive s.
Proof.
  intros Hne Hre. unfold generateSchedule.
  apply length_eqb_0 in Hne. rewrite Hne, Hre. cbn [negb fst snd].
  by destruct (configWriteOk e), (scheduleWriteOk e).
Qed.

(** The state left by the keep-existing branch. *)
Lemma generateSchedule_keeps force e s :
  videos e ≠ [] →
  shouldRegenerate force e s = false →
  generateSchedule force e s
  = (true, log (LogUsingExisting (scheduleAge e s / 60000)) s).
Proof.
  intros Hne Hre. unfold generateSchedule.
  apply length_eqb_0 in Hne. by rewrite Hne, Hre.
Qed.

(** The regeneration test, trigger by trigger. *)
Lemma shouldRegenerate_true force e s :
  shouldRegenerate force e s = true ↔
  force = true
  ∨ NODE_ENV e = Some "production"
  ∨ env_truthy (BUILD_ENV e) = true
  ∨ regenerateOnBuild (config s) = true
  ∨ generated_truthy (generated (schedule s)) = false
  ∨ length (shuffledOrder (schedule s)) ≠ length (videos e)
  ∨ (∃ t, generated (schedule s) = Some t
          ∧ scheduleRebuildInterval (config s) ≤ now e - t).
Proof.
  unfold shouldRegenerate, isBuildEnvironment, schedule_stale.
  rewrite !orb_true_iff, !negb_true_iff, Nat.eqb_neq.
  split.
  - intros [[[[Hf|[[Hn|Hb]|Hr]]|Hg]|Hl]|Hs]; auto 10.
    + destruct (NODE_ENV e) as [v|]; [|done].
      apply String.eqb_eq in Hn. subst. auto.
    + destruct (generated (schedule s)) as [t|] eqn:Hgen; [|auto 10].
      destruct (generated_truthy (Some t)) eqn:Ht; [|auto 10].
      apply Z.leb_le in Hs. do 6 right. by exists t.
  - intros [Hf|[Hn|[Hb|[Hr|[Hg|[Hl|(t & Hgen & Ht)]]]]]]; auto 10.
    + left; left; left; right; left; left. rewrite Hn. by apply String.eqb_eq.
    + right. rewrite Hgen.
      destruct (generated_truthy (Some t)); [|done]. by apply Z.leb_le.
Qed.

(** C5 (as amended).  With a non-empty catalog and no regeneration trigger
    (no force, a prior schedule, catalog and permutation of the same
    length, an age below the rebuild interval, no build signal),
    [generateSchedule] returns TRUE and leaves schedule, configuration and
    guard as they are.  In every state it returns false exactly when the
    catalog is empty, and then schedule and configuration are as before.
    Whenever the catalog is not empty and some trigger holds it regenerates
    and returns true: the permutation is the shuffle of the catalog under
    the seed [generateUTCSeed] gives (of the length of the catalog, and a
    permutation of it when that seed is not negative and its first generator
    step stays below 2^53), cursor and play count are 0, the generation time
    is the current time and the seed is recorded in the configuration. *)
Theorem generateSchedule_keeps_existing_schedule (e : GenEnv) (s : Scheduler)
    (t : Z) :
  videos e ≠ [] →
  generated (schedule s) = Some t → t ≠ 0 →
  length (shuffledOrder (schedule s)) = length (videos e) →
  now e - t < scheduleRebuildInterval (config s) →
  NODE_ENV e ≠ Some "production" →
  env_truthy (BUILD_ENV e) = false →
  regenerateOnBuild (config s) = false →
  (fst (generateSchedule false e s) = true
   ∧ schedule (snd (generateSchedule false e s)) = schedule s
   ∧ config (snd (generateSchedule false e s)) = config s
   ∧ isStaticActive (snd (generateSchedule false e s)) = isStaticActive s)
  ∧ (∀ force e' s', fst (generateSchedule force e' s') = false ↔ videos e' = [])
  ∧ (∀ force e' s',
       videos e' = [] →
       schedule (snd (generateSchedule force e' s')) = schedule s'
       ∧ config (snd (generateSchedule force e' s')) = config s')
  ∧ (∀ force e' s',
       videos e' ≠ [] →
       (force = true
        ∨ NODE_ENV e' = Some "production"
        ∨ env_truthy (BUILD_ENV e') = true
        ∨ regenerateOnBuild (config s') = true
        ∨ generated_truthy (generated (schedule s')) = false
        ∨ length (shuffledOrder (schedule s')) ≠ length (videos e')
        ∨ (∃ t', generated (schedule s') = Some t'
                 ∧ scheduleRebuildInterval (config s') ≤ now e' - t')) →
       let seed := generateUTCSeed (config s') (hostZone e') (seedInstant e') in
       let s'' := snd (generateSchedule force e' s') in
       fst (generateSchedule force e' s') = true
       ∧ shuffledOrder (schedule s'') = shuffled_items (Some <$> videos e') seed
       ∧ length (shuffledOrder (schedule s'')) = length (videos e')
       ∧ (0 ≤ seed → seed * 9301 + 49297 < 2 ^ 53 →
          shuffledOrder (schedule s'') ≡ₚ Some <$> videos e')
       ∧ currentIndex (schedule s'') = 0
       ∧ totalPlayed (schedule s'') = 0
       ∧ generated (schedule s'') = Some (now e')
       ∧ shuffleSeed (config s'') = Some seed
       ∧ isStaticActive s'' = isStaticActive s').
Proof.
  intros Hne Hgen Ht Hlen Hage Hnode Hbuild Hreg. split; [|split; [|split]].
  - assert (shouldRegenerate false e s = false) as Hno.
    { destruct (shouldRegenerate false e s) eqn:Hre; [|done].
      apply shouldRegenerate_true in Hre.
      destruct Hre as [Hf|[Hn|[Hb|[Hr|[Hg|[Hl|(t' & Hgen' & Ht')]]]]]];
        try congruence.
      - rewrite Hgen in Hg. cbn in Hg. apply negb_false_iff, Z.eqb_eq in Hg. done.
      - rewrite Hgen in Hgen'. simplify_eq. lia. }
    by rewrite (generateSchedule_keeps _ _ _ Hne Hno).
  - intros force e' s'. unfold generateSchedule.
    destruct (videos e') as [|v vs]; cbn [length Nat.eqb]; [done|].
    destruct (negb (shouldRegenerate force e' s')); cbn [fst]; split; done.
  - intros force e' s' Hv. unfold generateSchedule. by rewrite Hv.
  - intros force e' s' Hne' Htrig. cbv zeta.
    apply shouldRegenerate_true in Htrig.
    destruct (generateSchedule_regenerates force e' s' Hne' Htrig)
      as (Hret & Hsch & Hcfg & Hflag).
    rewrite Hret, Hsch, Hcfg, Hflag. cbn. split_and!; try done.
    + by rewrite shuffled_items_length, length_fmap.
    + intros Hseed _. by apply shuffled_items_perm.
Qed.


(** ** Play count *)

(** C8 (as amended).  [playNextVideo] (cycle wrap included), interference
    reports and [stopCurrentVideo] never lower the play count: the first
    leaves it or adds one, the others leave it.  [generateSchedule] leaves
    it when it keeps the schedule or finds no video, and sets it to 0 when
    it regenerates. *)
Theorem totalPlayed_only_reset_by_regeneration (s : Scheduler) :
  (∀ ok, totalPlayed (schedule s)
         ≤ totalPlayed (schedule (snd (playNextVideo ok s)))
         ≤ totalPlayed (schedule s) + 1)
  ∧ (∀ level, totalPlayed (schedule (onStaticDetected level s))
              = totalPlayed (schedule s))
  ∧ totalPlayed (schedule (stopCurrentVideo s)) = totalPlayed (schedule s)
  ∧ (∀ force e,
       totalPlayed (schedule (snd (generateSchedule force e s)))
       = if negb (length (videos e) =? 0)%nat && shouldRegenerate force e s
         then 0 else totalPlayed (schedule s)).
Proof.
  assert (∀ s0, totalPlayed (schedule (stopCurrentVideo s0))
                = totalPlayed (schedule s0)) as Hstop.
  { intros s0. unfold stopCurrentVideo.
    destruct (video_truthy _); [|done]. cbn. by destruct (videoTimer s0). }
  split; [|split; [|split]].
  - intros ok. unfold playNextVideo.
    destruct (isStaticActive s); cbn; [lia|].
    destruct (length _ =? 0)%nat; cbn; [lia|].
    destruct (Z.rem _ _ =? 0), ok; cbn; lia.
  - intros level. unfold onStaticDetected.
    destruct (exceeds _ _), (isStaticActive s); cbn [negb]; try done.
    + cbn [schedule]. by rewrite Hstop.
    + cbn. by destruct (staticTimer s).
  - apply Hstop.
  - intros force e. unfold generateSchedule.
    destruct (length (videos e) =? 0)%nat; cbn; [done|].
    destruct (shouldRegenerate force e s); cbn; [|done].
    by destruct (configWriteOk e), (scheduleWriteOk e).
Qed.

Lemma generateSchedule_keeps_existing_schedule_witness :
  (fst (generateSchedule false (demo_env 1759752060000) (quiet_scheduler 1 5)) = true
   ∧ schedule (snd (generateSchedule false (demo_env 1759752060000) (quiet_scheduler 1 5)))
     = schedule (quiet_scheduler 1 5)
   ∧ config (snd (generateSchedule false (demo_env 1759752060000) (quiet_scheduler 1 5)))
     = config (quiet_scheduler 1 5)
   ∧ isStaticActive (snd (generateSchedule false (demo_env 1759752060000) (quiet_scheduler 1 5)))
     = isStaticActive (quiet_scheduler 1 5))
  ∧ (∀ force e' s', fst (generateSchedule force e' s') = false ↔ videos e' = [])
  ∧ (∀ force e' s',
       videos e' = [] →
       schedule (snd (generateSchedule force e' s')) = schedule s'
       ∧ config (snd (generateSchedule force e' s')) = config s')
  ∧ (∀ force e' s',
       videos e' ≠ [] →
       (force = true
        ∨ NODE_ENV e' = Some "production"
        ∨ env_truthy (BUILD_ENV e') = true
        ∨ regenerateOnBuild (config s') = true
        ∨ generated_truthy (generated (schedule s')) = false
        ∨ length (shuffledOrder (schedule s')) ≠ length (videos e')
        ∨ (∃ t', generated (schedule s') = Some t'
                 ∧ scheduleRebuildInterval (config s') ≤ now e' - t')) →
       let seed := generateUTCSeed (config s') (hostZone e') (seedInstant e') in
       let s'' := snd (generateSchedule force e' s') in
       fst (generateSchedule force e' s') = true
       ∧ shuffledOrder (schedule s'') = shuffled_items (Some <$> videos e') seed
       ∧ length (shuffledOrder (schedule s'')) = length (videos e')
       ∧ (0 ≤ seed → seed * 9301 + 49297 < 2 ^ 53 →
          shuffledOrder (schedule s'') ≡ₚ Some <$> videos e')
       ∧ currentIndex (schedule s'') = 0
       ∧ totalPlayed (schedule s'') = 0
       ∧ generated (schedule s'') = Some (now e')
       ∧ shuffleSeed (config s'') = Some seed
       ∧ isStaticActive s'' = isStaticActive s').
Proof.
  apply (generateSchedule_keeps_existing_schedule (demo_env 1759752060000)
           (quiet_scheduler 1 5) 1759752000000).
  - discriminate.
  - reflexivity.
  - lia.
  - reflexivity.
  - simpl. lia.
  - discriminate.
  - reflexivity.
  - reflexivity.
Defined.

(** C5, as stated, fails: one minute after generation, with the same three
    videos, no force, no build signal and [regenerateOnBuild] off, no
    trigger holds, yet [generateSchedule] returns true, not false. *)
Lemma generateSchedule_returns_true_when_keeping :
  shouldRegenerate false (demo_env 1759752060000) (quiet_scheduler 1 5) = false
  ∧ videos (demo_env 1759752060000) ≠ []
  ∧ schedule (snd (generateSchedule false (demo_env 1759752060000) (quiet_scheduler 1 5)))
    = schedule (quiet_scheduler 1 5)
  ∧ fst (generateSchedule false (demo_env 1759752060000) (quiet_scheduler 1 5)) = true
  ∧ fst (generateSchedule false (demo_env 1759752060000) (quiet_scheduler 1 5)) ≠ false.
Proof. split_and!; try reflexivity; discriminate. Qed.


(** C8, as stated, fails at regeneration: a schedule that has served 5
    videos is regenerated (constructor configuration, same catalog) and its
    play count is 0 afterwards. *)
Lemma totalPlayed_reset_by_generateSchedule :
  totalPlayed (schedule (demo_scheduler 1 5 false)) = 5
  ∧ totalPlayed (schedule (snd (generateSchedule false (demo_env 1759752060000)
                                                 (demo_scheduler 1 5 false)))) = 0
  ∧ ¬ (totalPlayed (schedule (demo_scheduler 1 5 false))
       ≤ totalPlayed (schedule (snd (generateSchedule false (demo_env 1759752060000)
                                                      (demo_scheduler 1 5 false))))).
Proof.
  split; [reflexivity|]. split; [vm_compute; reflexivity|].
  vm_compute. intros H. by apply H.
Qed.

(** ** Configuration loading *)

(** C7 (as amended).  [loadConfig] adopts what the file holds as it is.  For
    each of the eight configuration keys ([shuffleSeed],
    [scheduleRebuildInterval], [staticDetectionThreshold],
    [maxStaticDuration], [videoTransitionDelay], [regenerateOnBuild],
    [timezoneMode], [dailySeedReset]): when the key is present in the record
    its value replaces the current one, whatever it is (a negative threshold
    or interval included), and when it is absent the current value is kept.
    Schedule and guard are not touched.  An absent or unreadable file leaves
    configuration and schedule unchanged.  No value is rejected, clamped or
    replaced by a default. *)
Theorem loadConfig_adopts_file_values (s : Scheduler) (data : ConfigData) :
  configFile s = Holds data →
  (∀ v, d_shuffleSeed data = Some v →
        shuffleSeed (config (loadConfig s)) = v)
  ∧ (d_shuffleSeed data = None →
     shuffleSeed (config (loadConfig s)) = shuffleSeed (config s))
  ∧ (∀ n, d_scheduleRebuildInterval data = Some n →
        scheduleRebuildInterval (config (loadConfig s)) = n)
  ∧ (d_scheduleRebuildInterval data = None →
     scheduleRebuildInterval (config (loadConfig s)) = scheduleRebuildInterval (config s))
  ∧ (∀ q, d_staticDetectionThreshold data = Some q →
        staticDetectionThreshold (config (loadConfig s)) = q)
  ∧ (d_staticDetectionThreshold data = None →
     staticDetectionThreshold (config (loadConfig s)) = staticDetectionThreshold (config s))
  ∧ (∀ n, d_maxStaticDuration data = Some n →
        maxStaticDuration (config (loadConfig s)) = n)
  ∧ (d_maxStaticDuration data = None →
     maxStaticDuration (config (loadConfig s)) = maxStaticDuration (config s))
  ∧ (∀ n, d_videoTransitionDelay data = Some n →
        videoTransitionDelay (config (loadConfig s)) = n)
  ∧ (d_videoTransitionDelay data = None →
     videoTransitionDelay (config (loadConfig s)) = videoTransitionDelay (config s))
  ∧ (∀ b, d_regenerateOnBuild data = Some b →
        regenerateOnBuild (config (loadConfig s)) = b)
  ∧ (d_regenerateOnBuild data = None →
     regenerateOnBuild (config (loadConfig s)) = regenerateOnBuild (config s))
  ∧ (∀ z, d_timezoneMode data = Some z →
        timezoneMode (config (loadConfig s)) = z)
  ∧ (d_timezoneMode data = None →
     timezoneMode (config (loadConfig s)) = timezoneMode (config s))
  ∧ (∀ b, d_dailySeedReset data = Some b →
        dailySeedReset (config (loadConfig s)) = b)
  ∧ (d_dailySeedReset data = None →
     dailySeedReset (config (loadConfig s)) = dailySeedReset (config s))
  ∧ isStaticActive (loadConfig s) = isStaticActive s
  ∧ schedule (loadConfig s) = schedule s
  ∧ (∀ s0, configFile s0 = Absent ∨ configFile s0 = Unreadable →
           config (loadConfig s0) = config s0
           ∧ schedule (loadConfig s0) = schedule s0).
Proof.
  intros Hfile.
  assert (config (loadConfig s) = spread_config (config s) data
          ∧ isStaticActive (loadConfig s) = isStaticActive s
          ∧ schedule (loadConfig s) = schedule s) as (Hcfg & Hflag & Hsch).
  { unfold loadConfig. by rewrite Hfile. }
  rewrite Hcfg, Hflag, Hsch. unfold spread_config. cbn.
  split_and!; try done; try (by intros ? ->); try (by intros ->).
  intros s0 [H0 | H0]; unfold loadConfig; by rewrite H0.
Qed.

Lemma loadConfig_adopts_file_values_witness :
  (∀ v, d_shuffleSeed negative_threshold_data = Some v →
        shuffleSeed (config (loadConfig (new_VideoScheduler Absent (Holds negative_threshold_data)))) = v)
  ∧ (d_shuffleSeed negative_threshold_data = None →
     shuffleSeed (config (loadConfig (new_VideoScheduler Absent (Holds negative_threshold_data)))) = shuffleSeed (config (new_VideoScheduler Absent (Holds negative_threshold_data))))
  ∧ (∀ n, d_scheduleRebuildInterval negative_threshold_data = Some n →
        scheduleRebuildInterval (config (loadConfig (new_VideoScheduler Absent (Holds negative_threshold_data)))) = n)
  ∧ (d_scheduleRebuildInterval negative_threshold_data = None →
     scheduleRebuildInterval (config (loadConfig (new_VideoScheduler Absent (Holds negative_threshold_data)))) = scheduleRebuildInterval (config (new_VideoScheduler Absent (Holds negative_threshold_data))))
  ∧ (∀ q, d_staticDetectionThreshold negative_threshold_data = Some q →
        staticDetectionThreshold (config (loadConfig (new_VideoScheduler Absent (Holds negative_threshold_data)))) = q)
  ∧ (d_staticDetectionThreshold negative_threshold_data = None →
     staticDetectionThreshold (config (loadConfig (new_VideoScheduler Absent (Holds negative_threshold_data)))) = staticDetectionThreshold (config (new_VideoScheduler Absent (Holds negative_threshold_data))))
  ∧ (∀ n, d_maxStaticDuration negative_threshold_data = Some n →
        maxStaticDuration (config (loadConfig (new_VideoScheduler Absent (Holds negative_threshold_data)))) = n)
  ∧ (d_maxStaticDuration negative_threshold_data = None →
     maxStaticDuration (config (loadConfig (new_VideoScheduler Absent (Holds negative_threshold_data)))) = maxStaticDuration (config (new_VideoScheduler Absent (Holds negative_threshold_data))))
  ∧ (∀ n, d_videoTransitionDelay negative_threshold_data = Some n →
        videoTransitionDelay (config (loadConfig (new_VideoScheduler Absent (Holds negative_threshold_data)))) = n)
  ∧ (d_videoTransitionDelay negative_threshold_data = None →
     videoTransitionDelay (config (loadConfig (new_VideoScheduler Absent (Holds negative_threshold_data)))) = videoTransitionDelay (config (new_VideoScheduler Absent (Holds negative_threshold_data))))
  ∧ (∀ b, d_regenerateOnBuild negative_threshold_data = Some b →
        regenerateOnBuild (config (loadConfig (new_VideoScheduler Absent (Holds negative_threshold_data)))) = b)
  ∧ (d_regenerateOnBuild negative_threshold_data = None →
     regenerateOnBuild (config (loadConfig (new_VideoScheduler Absent (Holds negative_threshold_data)))) = regenerateOnBuild (config (new_VideoScheduler Absent (Holds negative_threshold_data))))
  ∧ (∀ z, d_timezoneMode negative_threshold_data = Some z →
        timezoneMode (config (loadConfig (new_VideoScheduler Absent (Holds negative_threshold_data)))) = z)
  ∧ (d_timezoneMode negative_threshold_data = None →
     timezoneMode (config (loadConfig (new_VideoScheduler Absent (Holds negative_threshold_data)))) = timezoneMode (config (new_VideoScheduler Absent (Holds negative_threshold_data))))
  ∧ (∀ b, d_dailySeedReset negative_threshold_data = Some b →
        dailySeedReset (config (loadConfig (new_VideoScheduler Absent (Holds negative_threshold_data)))) = b)
  ∧ (d_dailySeedReset negative_threshold_data = None →
     dailySeedReset (config (loadConfig (new_VideoScheduler Absent (Holds negative_threshold_data)))) = dailySeedReset (config (new_VideoScheduler Absent (Holds negative_threshold_data))))
  ∧ isStaticActive (loadConfig (new_VideoScheduler Absent (Holds negative_threshold_data))) = isStaticActive (new_VideoScheduler Absent (Holds negative_threshold_data))
  ∧ schedule (loadConfig (new_VideoScheduler Absent (Holds negative_threshold_data))) = schedule (new_VideoScheduler Absent (Holds negative_threshold_data))
  ∧ (∀ s0, configFile s0 = Absent ∨ configFile s0 = Unreadable →
           config (loadConfig s0) = config s0
           ∧ schedule (loadConfig s0) = schedule s0).
Proof.
  apply (loadConfig_adopts_file_values
           (new_VideoScheduler Absent (Holds negative_threshold_data))
           negative_threshold_data).
  reflexivity.
Defined.

(** C7, as stated, fails: a configuration file holding the threshold -1/2
    is loaded as it is.  The threshold in force is then -1/2, neither the
    default 3/10 nor a value clamped into [0, 1], and a report of level 0
    suppresses playback. *)
Lemma loadConfig_adopts_negative_threshold :
  staticDetectionThreshold
    (config (loadConfig (new_VideoScheduler Absent (Holds negative_threshold_data))))
  = (-1 # 2)%Q
  ∧ (staticDetectionThreshold
       (config (loadConfig (new_VideoScheduler Absent (Holds negative_threshold_data))))
     < 0)%Q
  ∧ isStaticActive
      (onStaticDetected 0%Q
         (loadConfig (new_VideoScheduler Absent (Holds negative_threshold_data))))
    = true.
Proof. split_and!; reflexivity. Qed.

(** ** Interference guard *)

Lemma stopCurrentVideo_fields s :
  config (stopCurrentVideo s) = config s
  ∧ isStaticActive (stopCurrentVideo s) = isStaticActive s
  ∧ staticTimer (stopCurrentVideo s) = staticTimer s.
Proof.
  unfold stopCurrentVideo.
  destruct (video_truthy _); [|done]. cbn. by destruct (videoTimer s).
Qed.

Lemma onStaticDetected_config level s :
  config (onStaticDetected level s) = config s.
Proof.
  unfold onStaticDetected.
  destruct (exceeds _ _), (isStaticActive s); cbn [negb]; try done.
  - cbn [config]. by destruct (stopCurrentVideo_fields
      (mkScheduler (schedule (log (LogStaticDetected level) s))
         (config (log (LogStaticDetected level) s)) true
         (staticTimer (log (LogStaticDetected level) s))
         (videoTimer (log (LogStaticDetected level) s))
         (scheduleFile (log (LogStaticDetected level) s))
         (configFile (log (LogStaticDetected level) s))
         (trace (log (LogStaticDetected level) s)))) as (-> & _).
  - cbn. by destruct (staticTimer s).
Qed.

(** A report above the threshold leaves the guard suppressed, a report at or
    below it leaves the guard clear. *)
Lemma onStaticDetected_flag level s :
  isStaticActive (onStaticDetected level s)
  = exceeds level (staticDetectionThreshold (config s)).
Proof.
  unfold onStaticDetected.
  destruct (exceeds _ _), (isStaticActive s) eqn:Hact; cbn [negb]; try done.
  - cbn [isStaticActive].
    by destruct (stopCurrentVideo_fields
      (mkScheduler (schedule (log (LogStaticDetected level) s))
         (config (log (LogStaticDetected level) s)) true
         (staticTimer (log (LogStaticDetected level) s))
         (videoTimer (log (LogStaticDetected level) s))
         (scheduleFile (log (LogStaticDetected level) s))
         (configFile (log (LogStaticDetected level) s))
         (trace (log (LogStaticDetected level) s)))) as (_ & -> & _).
  - cbn. by destruct (staticTimer s).
Qed.

(** A report on the side the guard is already on changes nothing at all. *)
Lemma onStaticDetected_same_side level s :
  isStaticActive s = exceeds level (staticDetectionThreshold (config s)) →
  onStaticDetected level s = s.
Proof.
  intros Hside. unfold onStaticDetected. rewrite <- Hside.
  by destruct (isStaticActive s).
Qed.

Lemma step_threshold o s :
  staticDetectionThreshold (config (step o s))
  = staticDetectionThreshold (config s).
Proof.
  destruct o as [level|ok|force e|]; cbn [step].
  - by rewrite onStaticDetected_config.
  - unfold playNextVideo.
    destruct (isStaticActive s); [done|].
    destruct (length _ =? 0)%nat; [done|].
    cbn [snd]. destruct (Z.rem _ _ =? 0), ok; cbn; done.
  - unfold generateSchedule.
    destruct (length _ =? 0)%nat; [done|].
    destruct (negb _); [done|]. cbn [snd].
    by destruct (configWriteOk e), (scheduleWriteOk e).
  - by destruct (stopCurrentVideo_fields s) as (-> & _).
Qed.

(** Only a report moves the guard; the other operations leave it. *)
Lemma step_flag o s :
  isStaticActive (step o s)
  = match o with
    | OpReport level => exceeds level (staticDetectionThreshold (config s))
    | _ => isStaticActive s
    end.
Proof.
  destruct o as [level|ok|force e|]; cbn [step].
  - apply onStaticDetected_flag.
  - unfold playNextVideo.
    destruct (isStaticActive s) eqn:Hact; [done|].
    destruct (length _ =? 0)%nat; [done|].
    cbn [snd]. destruct (Z.rem _ _ =? 0), ok; cbn; done.
  - unfold generateSchedule.
    destruct (length _ =? 0)%nat; [done|].
    destruct (negb _); [done|]. cbn [snd].
    by destruct (configWriteOk e), (scheduleWriteOk e).
  - by destruct (stopCurrentVideo_fields s) as (_ & -> & _).
Qed.

Lemma run_cons o ops s : run (o :: ops) s = run ops (step o s).
Proof. done. Qed.

Lemma run_threshold ops s :
  staticDetectionThreshold (config (run ops s))
  = staticDetectionThreshold (config s).
Proof.
  revert s. induction ops as [|o ops IH]; intros s; [done|].
  rewrite run_cons, IH. apply step_threshold.
Qed.

Lemma run_keeps_suppressed ops s :
  isStaticActive s = true →
  forallb (keeps_suppressed (staticDetectionThreshold (config s))) ops = true →
  isStaticActive (run ops s) = true.
Proof.
  revert s. induction ops as [|o ops IH]; intros s Hact Hall; [done|].
  cbn in Hall. apply andb_true_iff in Hall as [Ho Hall].
  rewrite run_cons. apply IH.
  - rewrite step_flag. by destruct o.
  - by rewrite step_threshold.
Qed.

Lemma run_keeps_clear ops s :
  isStaticActive s = false →
  forallb (keeps_clear (staticDetectionThreshold (config s))) ops = true →
  isStaticActive (run ops s) = false.
Proof.
  revert s. induction ops as [|o ops IH]; intros s Hact Hall; [done|].
  cbn in Hall. apply andb_true_iff in Hall as [Ho Hall].
  rewrite run_cons. apply IH.
  - rewrite step_flag. destruct o; try done. cbn in Ho.
    by apply negb_true_iff in Ho.
  - by rewrite step_threshold.
Qed.

(** C6.  The guard has two states.  After a report [x] above the threshold
    it is suppressed, and stays so through every run of playback calls,
    schedule generations and further reports above the threshold; the next
    report [y] at or below the threshold clears it, and it then stays clear
    until a report above the threshold.  A report on the side the guard is
    already on leaves the whole scheduler (flag, timers, current video,
    trace of log lines and timer actions) exactly as it was. *)
Theorem onStaticDetected_two_state_guard (s : Scheduler) (x y : Q) :
  exceeds x (staticDetectionThreshold (config s)) = true →
  exceeds y (staticDetectionThreshold (config s)) = false →
  let thr := staticDetectionThreshold (config s) in
  isStaticActive (onStaticDetected x s) = true
  ∧ (∀ ops, forallb (keeps_suppressed thr) ops = true →
            isStaticActive (run ops (onStaticDetected x s)) = true
            ∧ isStaticActive
                (onStaticDetected y (run ops (onStaticDetected x s))) = false)
  ∧ isStaticActive (onStaticDetected y s) = false
  ∧ (∀ ops, forallb (keeps_clear thr) ops = true →
            isStaticActive (run ops (onStaticDetected y s)) = false)
  ∧ (∀ x', exceeds x' thr = true →
           onStaticDetected x' (onStaticDetected x s) = onStaticDetected x s)
  ∧ (∀ y', exceeds y' thr = false →
           onStaticDetected y' (onStaticDetected y s) = onStaticDetected y s).
Proof.
  intros Hx Hy. cbv zeta.
  assert (isStaticActive (onStaticDetected x s) = true) as Hon
    by by rewrite onStaticDetected_flag.
  assert (isStaticActive (onStaticDetected y s) = false) as Hoff
    by by rewrite onStaticDetected_flag.
  split_and!; try done.
  - intros ops Hops. split.
    + apply run_keeps_suppressed; [done|]. by rewrite onStaticDetected_config.
    + rewrite onStaticDetected_flag, run_threshold.
      by rewrite onStaticDetected_config.
  - intros ops Hops. apply run_keeps_clear; [done|].
    by rewrite onStaticDetected_config.
  - intros x' Hx'. apply onStaticDetected_same_side.
    by rewrite Hon, onStaticDetected_config.
  - intros y' Hy'. apply onStaticDetected_same_side.
    by rewrite Hoff, onStaticDetected_config.
Qed.

Lemma onStaticDetected_two_state_guard_witness :
  let s := demo_scheduler 1 5 false in
  let thr := staticDetectionThreshold (config s) in
  isStaticActive (onStaticDetected (1 # 2) s) = true
  ∧ (∀ ops, forallb (keeps_suppressed thr) ops = true →
            isStaticActive (run ops (onStaticDetected (1 # 2) s)) = true
            ∧ isStaticActive
                (onStaticDetected 0 (run ops (onStaticDetected (1 # 2) s))) = false)
  ∧ isStaticActive (onStaticDetected 0 s) = false
  ∧ (∀ ops, forallb (keeps_clear thr) ops = true →
            isStaticActive (run ops (onStaticDetected 0 s)) = false)
  ∧ (∀ x', exceeds x' thr = true →
           onStaticDetected x' (onStaticDetected (1 # 2) s)
           = onStaticDetected (1 # 2) s)
  ∧ (∀ y', exceeds y' thr = false →
           onStaticDetected y' (onStaticDetected 0 s) = onStaticDetected 0 s).
Proof.
  apply (onStaticDetected_two_state_guard (demo_scheduler 1 5 false)
           (1 # 2)%Q 0%Q).
  - reflexivity.
  - reflexivity.
Defined.

(** ** The calendar round trip behind the daily seed *)

Module JSDateFacts.
Import JSDate.

Lemma scan_nat (p : Z → bool) (k : nat) :
  fst (nat_rect _ (0, true) (fun _ => scan p) k) = Z.of_nat k
  ∧ (snd (nat_rect _ (0, true) (fun _ => scan p) k) = true →
     ∀ i, 0 ≤ i < Z.of_nat k → p i = true).
Proof.
  induction k as [|k [IHi IHb]]; [split; [done|intros; lia]|].
  cbn [nat_rect]. unfold scan at 1 3. cbn [fst snd]. rewrite IHi.
  split; [lia|]. intros Hb i Hi. apply andb_true_iff in Hb as [Hb Hp].
  destruct (decide (i = Z.of_nat k)) as [->|]; [done|].
  apply IHb; [done|lia].
Qed.

Lemma scan_below (p : Z → bool) (n : positive) :
  snd (Pos.iter (scan p) (0, true) n) = true →
  ∀ i, 0 ≤ i < Z.pos n → p i = true.
Proof.
  rewrite Pos2Nat.inj_iter. intros Hb i Hi.
  apply (proj2 (scan_nat p (Pos.to_nat n)) Hb). lia.
Qed.

Lemma era_date_ok_all doe : 0 ≤ doe < 146097 → era_date_ok doe = true.
Proof.
  apply (scan_below era_date_ok 146097). vm_compute. reflexivity.
Qed.

Lemma civil_from_days_era day :
  let z := day + 719468 in
  let era := z / 146097 in
  let doe := z - era * 146097 in
  let '(yoe, m, d) := era_date doe in
  civil_from_days day = (if m <=? 2 then yoe + era * 400 + 1 else yoe + era * 400, m, d).
Proof. reflexivity. Qed.

(** Converting a day number to a date and back gives the day number. *)
Lemma civil_round_trip day :
  let '(y, m, d) := civil_from_days day in
  days_from_civil y m d = day ∧ 1 ≤ m ≤ 12
  ∧ (719468 ≤ day + 719468 → 1600 ≤ y).
Proof.
  pose proof (civil_from_days_era day) as Hera. cbv zeta in Hera.
  set (z := day + 719468) in *.
  set (era := z / 146097) in *.
  set (doe := z - era * 146097) in *.
  assert (0 ≤ doe < 146097) as Hdoe.
  { subst doe era. pose proof (Z.mod_pos_bound z 146097 ltac:(lia)).
    rewrite Z.mod_eq in H by lia. lia. }
  pose proof (era_date_ok_all doe Hdoe) as Hok. unfold era_date_ok in Hok.
  destruct (era_date doe) as [[yoe m] d]. rewrite Hera. clear Hera.
  repeat (apply andb_true_iff in Hok as [Hok ?]).
  assert (0 ≤ yoe < 400 ∧ 1 ≤ m ≤ 12) as [Hyoe Hm] by lia.
  split; [|split; [done|]].
  - unfold days_from_civil.
    set (y' := if m <=? 2
               then (if m <=? 2 then yoe + era * 400 + 1 else yoe + era * 400) - 1
               else (if m <=? 2 then yoe + era * 400 + 1 else yoe + era * 400)).
    assert (y' = yoe + era * 400) as -> by (subst y'; destruct (m <=? 2); lia).
    assert ((yoe + era * 400) / 400 = era) as ->.
    { rewrite Z.div_add by lia. rewrite Z.div_small by lia. lia. }
    replace (yoe + era * 400 - era * 400) with yoe by lia.
    subst doe. lia.
  - intros Hz.
    assert (4 ≤ era) by (subst era; apply Z.div_le_lower_bound; lia).
    destruct (m <=? 2); lia.
Qed.

(** [MakeDay] applied to the UTC fields of a time value is its day. *)
Lemma MakeDay_UTC_fields t :
  MakeDay (getUTCFullYear t) (getUTCMonth t) (getUTCDate t) = Day t
  ∧ (0 ≤ t → 1600 ≤ getUTCFullYear t).
Proof.
  unfold MakeDay, getUTCFullYear, getUTCMonth, getUTCDate.
  pose proof (civil_round_trip (Day t)) as Hrt.
  destruct (civil_from_days (Day t)) as [[y m] d]. cbn [fst snd].
  destruct Hrt as (Hrt & Hm & Hy).
  assert ((m - 1) / 12 = 0) as -> by (apply Z.div_small; lia).
  assert ((m - 1) mod 12 = m - 1) as -> by (apply Z.mod_small; lia).
  split.
  - replace (y + 0) with y by lia. replace (m - 1 + 1) with m by lia.
    rewrite <- Hrt. unfold days_from_civil. lia.
  - intros Ht. apply Hy.
    assert (0 ≤ Day t) by (apply Z.div_pos; [done|unfold msPerDay; lia]). lia.
Qed.

End JSDateFacts.

(** The day index the daily seed is computed from: the UTC day of the
    instant, moved by the zone of the host. *)
Lemma generateUTCSeed_daily_formula (cfg : Config) (tza t : Z) :
  dailySeedReset cfg = true → 0 ≤ t →
  generateUTCSeed cfg tza t
  = Z.rem ((JSDate.Day t * JSDate.msPerDay - tza) / JSDate.msPerDay * 31) 1000000.
Proof.
  intros Hd Ht. unfold generateUTCSeed. rewrite Hd.
  destruct (JSDateFacts.MakeDay_UTC_fields t) as [Hday Hyear].
  unfold JSDate.new_Date_ymd. cbv zeta.
  destruct (Z.leb_spec (JSDate.getUTCFullYear t) 99) as [Hle|_];
    [specialize (Hyear Ht); lia|].
  rewrite andb_false_r, Hday. reflexivity.
Qed.

(** On one host, two instants of the same UTC date give the same seed, and
    instants of different UTC dates give different day indices. *)
Lemma generateUTCSeed_same_host (cfg : Config) (tza t1 t2 : Z) :
  dailySeedReset cfg = true → 0 ≤ t1 → 0 ≤ t2 →
  (JSDate.Day t1 = JSDate.Day t2 →
   generateUTCSeed cfg tza t1 = generateUTCSeed cfg tza t2)
  ∧ (JSDate.Day t1 ≠ JSDate.Day t2 →
     (JSDate.Day t1 * JSDate.msPerDay - tza) / JSDate.msPerDay
     ≠ (JSDate.Day t2 * JSDate.msPerDay - tza) / JSDate.msPerDay).
Proof.
  intros Hd Ht1 Ht2. split.
  - intros Hday. rewrite !generateUTCSeed_daily_formula by done. by rewrite Hday.
  - intros Hne. unfold JSDate.msPerDay.
    replace (24 * 60 * 60 * 1000) with 86400000 by done.
    rewrite !(Z.mul_comm _ 86400000).
    replace (86400000 * JSDate.Day t1 - tza)
      with (- tza + JSDate.Day t1 * 86400000) by lia.
    replace (86400000 * JSDate.Day t2 - tza)
      with (- tza + JSDate.Day t2 * 86400000) by lia.
    rewrite !Z.div_add by lia. lia.
Qed.

(** A host east of UTC (by at most a day) feeds the index of the PREVIOUS
    UTC day to the seed formula; a host at or west of UTC (by less than a
    day) feeds the index of the UTC day itself. *)
Lemma generateUTCSeed_day_index (tza day : Z) :
  (0 < tza ≤ JSDate.msPerDay →
   (day * JSDate.msPerDay - tza) / JSDate.msPerDay = day - 1)
  ∧ (- JSDate.msPerDay < tza ≤ 0 →
     (day * JSDate.msPerDay - tza) / JSDate.msPerDay = day).
Proof.
  unfold JSDate.msPerDay. replace (24 * 60 * 60 * 1000) with 86400000 by done.
  split; intros Hz.
  - symmetry. apply Z.div_unique with (r := 86400000 - tza); lia.
  - symmetry. apply Z.div_unique with (r := - tza); lia.
Qed.

(** The local midnight the daily branch builds, and the day index it
    yields. *)
Lemma utcMidnight_value (tza t : Z) :
  0 ≤ t → utcMidnight tza t = JSDate.Day t * JSDate.msPerDay - tza.
Proof.
  intros Ht. destruct (JSDateFacts.MakeDay_UTC_fields t) as [Hday Hyear].
  unfold utcMidnight, JSDate.new_Date_ymd. cbv zeta.
  destruct (Z.leb_spec (JSDate.getUTCFullYear t) 99) as [Hle|_];
    [specialize (Hyear Ht); lia|].
  by rewrite andb_false_r, Hday.
Qed.

Lemma generateUTCSeed_utcMidnight (cfg : Config) (tza t : Z) :
  dailySeedReset cfg = true →
  generateUTCSeed cfg tza t
  = Z.rem (utcMidnight tza t / (24 * 60 * 60 * 1000) * 31) 1000000.
Proof. intros Hd. unfold generateUTCSeed. by rewrite Hd. Qed.

(** Up to one day before the end of the [Date] range, and with an offset of
    at most a day, the local midnight is a time value. *)
Lemma utcMidnight_in_range (tza t : Z) :
  0 ≤ t ≤ JSDate.maxTime - JSDate.msPerDay →
  - JSDate.msPerDay ≤ tza ≤ JSDate.msPerDay →
  Z.abs (utcMidnight tza t) ≤ JSDate.maxTime.
Proof.
  intros Ht Hz. rewrite utcMidnight_value by lia.
  pose proof (Z.mul_div_le t JSDate.msPerDay eq_refl) as Hle.
  assert (0 ≤ JSDate.Day t) as Hday by (apply Z.div_pos; [lia|done]).
  unfold JSDate.Day, JSDate.maxTime, JSDate.msPerDay in *. lia.
Qed.

(** ** Seeds and cursors of a running scheduler *)

Lemma Date_UTC_fields t :
  0 ≤ t →
  JSDate.Date_UTC (JSDate.getUTCFullYear t) (JSDate.getUTCMonth t)
                  (JSDate.getUTCDate t)
  = JSDate.Day t * JSDate.msPerDay.
Proof.
  intros Ht. destruct (JSDateFacts.MakeDay_UTC_fields t) as [Hday Hyear].
  unfold JSDate.Date_UTC. cbv zeta.
  destruct (Z.leb_spec (JSDate.getUTCFullYear t) 99) as [Hle|_];
    [specialize (Hyear Ht); lia|].
  by rewrite andb_false_r, Hday.
Qed.

(** From the second day of 1970 on, and on a host at most a day east of
    UTC, the seed lies in [0, 1000000). *)
Lemma generateUTCSeed_range (cfg : Config) (tza t : Z) :
  JSDate.msPerDay ≤ t → tza ≤ JSDate.msPerDay →
  0 ≤ generateUTCSeed cfg tza t < 1000000.
Proof.
  intros Ht Hz. assert (0 ≤ t) as Ht0 by (unfold JSDate.msPerDay in Ht; lia).
  destruct (dailySeedReset cfg) eqn:Hd.
  - rewrite generateUTCSeed_daily_formula by done.
    apply Z.rem_bound_pos; [|lia].
    apply Z.mul_nonneg_nonneg; [|lia].
    apply Z.div_pos; [|unfold JSDate.msPerDay; lia].
    assert (1 ≤ JSDate.Day t).
    { apply Z.div_le_lower_bound; [unfold JSDate.msPerDay|]; lia. }
    unfold JSDate.msPerDay in *. lia.
  - unfold generateUTCSeed. rewrite Hd.
    apply Z.rem_bound_pos; [|lia].
    apply Z.mul_nonneg_nonneg; [|lia]. apply Z.div_pos; lia.
Qed.

Lemma stopCurrentVideo_order s :
  shuffledOrder (schedule (stopCurrentVideo s)) = shuffledOrder (schedule s)
  ∧ currentIndex (schedule (stopCurrentVideo s)) = currentIndex (schedule s).
Proof.
  unfold stopCurrentVideo.
  destruct (video_truthy _); [|done]. cbn. by destruct (videoTimer s).
Qed.

(** Every operation keeps the cursor inside a non-empty permutation. *)
Lemma step_cursor_in_range o s :
  (shuffledOrder (schedule s) ≠ [] →
   0 ≤ currentIndex (schedule s)
     < Z.of_nat (length (shuffledOrder (schedule s)))) →
  shuffledOrder (schedule (step o s)) ≠ [] →
  0 ≤ currentIndex (schedule (step o s))
    < Z.of_nat (length (shuffledOrder (schedule (step o s)))).
Proof.
  intros Hinv. destruct o as [level|ok|force e|]; cbn [step].
  - unfold onStaticDetected.
    destruct (exceeds _ _), (isStaticActive s); cbn [negb]; try done.
    + cbn [schedule].
      destruct (stopCurrentVideo_order
        (mkScheduler (schedule (log (LogStaticDetected level) s))
           (config (log (LogStaticDetected level) s)) true
           (staticTimer (log (LogStaticDetected level) s))
           (videoTimer (log (LogStaticDetected level) s))
           (scheduleFile (log (LogStaticDetected level) s))
           (configFile (log (LogStaticDetected level) s))
           (trace (log (LogStaticDetected level) s)))) as [-> ->].
      done.
    + cbn. by destruct (staticTimer s).
  - destruct (isStaticActive s) eqn:Hact.
    { unfold playNextVideo. by rewrite Hact. }
    destruct (decide (shuffledOrder (schedule s) = [])) as [Hnil|Hne].
    { unfold playNextVideo. by rewrite Hact, Hnil. }
    destruct (playNextVideo_serves ok s Hact Hne) as (_ & -> & _).
    cbn. intros _. specialize (Hinv Hne).
    apply Z.rem_bound_pos; lia.
  - unfold generateSchedule.
    destruct (length (videos e) =? 0)%nat eqn:Hlen; [done|].
    destruct (negb _); [done|]. cbn [snd].
    destruct (configWriteOk e), (scheduleWriteOk e); cbn;
      rewrite shuffled_items_length, length_fmap; intros _;
      apply Nat.eqb_neq in Hlen; lia.
  - by destruct (stopCurrentVideo_order s) as [-> ->].
Qed.

(** From the state built by the constructor, every run leaves the cursor
    inside the permutation whenever there is one. *)
Lemma run_cursor_in_range ops sf cf :
  let s := run ops (new_VideoScheduler sf cf) in
  shuffledOrder (schedule s) ≠ [] →
  0 ≤ currentIndex (schedule s) < Z.of_nat (length (shuffledOrder (schedule s))).
Proof.
  cbv zeta.
  assert (∀ ops s,
    (shuffledOrder (schedule s) ≠ [] →
     0 ≤ currentIndex (schedule s)
       < Z.of_nat (length (shuffledOrder (schedule s)))) →
    shuffledOrder (schedule (run ops s)) ≠ [] →
    0 ≤ currentIndex (schedule (run ops s))
      < Z.of_nat (length (shuffledOrder (schedule (run ops s))))) as Hrun.
  { clear. induction ops as [|o ops' IH]; intros s Hinv; [done|].
    rewrite run_cons. apply IH. by apply step_cursor_in_range. }
  apply Hrun. done.
Qed.

(** * Further properties *)

(** ** Seeds *)

Lemma day_index_nonneg (tza t : Z) :
  JSDate.msPerDay ≤ t → tza ≤ JSDate.msPerDay →
  0 ≤ (JSDate.Day t * JSDate.msPerDay - tza) / JSDate.msPerDay.
Proof.
  intros Ht Hz. apply Z.div_pos; [|unfold JSDate.msPerDay; lia].
  assert (1 ≤ JSDate.Day t).
  { apply Z.div_le_lower_bound; [unfold JSDate.msPerDay|]; lia. }
  unfold JSDate.msPerDay in *. lia.
Qed.

Lemma seed_of_index_injective (i j : Z) :
  0 ≤ i → 0 ≤ j → Z.abs (i - j) < 1000000 →
  Z.rem (i * 31) 1000000 = Z.rem (j * 31) 1000000 → i = j.
Proof.
  intros Hi Hj Hclose Heq.
  rewrite !Z.rem_mod_nonneg in Heq by lia.
  assert ((1000000 | (i - j) * 31)) as Hdiv.
  { apply Z.mod_divide; [lia|].
    rewrite Z.mul_sub_distr_r, Zminus_mod, Heq, Z.sub_diag. done. }
  rewrite Z.mul_comm in Hdiv.
  apply Z.gauss in Hdiv; [|reflexivity].
  destruct Hdiv as [q Hq]. assert (q = 0) by lia. lia.
Qed.

(** X1.  On one host (a fixed zone offset), in daily mode, two instants
    from 1970 on that fall on the same UTC date get the same seed, whatever
    the time of day. *)
Theorem daily_seed_constant_over_utc_day (cfg : Config) (tza t1 t2 : Z) :
  dailySeedReset cfg = true → 0 ≤ t1 → 0 ≤ t2 →
  JSDate.Day t1 = JSDate.Day t2 →
  generateUTCSeed cfg tza t1 = generateUTCSeed cfg tza t2.
Proof.
  intros Hd Ht1 Ht2 Hday.
  rewrite !generateUTCSeed_daily_formula by done. by rewrite Hday.
Qed.

Lemma daily_seed_constant_over_utc_day_witness :
  generateUTCSeed default_config 7200000 1759708800000
  = generateUTCSeed default_config 7200000 1759752000000.
Proof.
  apply (daily_seed_constant_over_utc_day default_config 7200000
           1759708800000 1759752000000).
  - reflexivity.
  - lia.
  - lia.
  - reflexivity.
Defined.

(** X2.  In daily mode the seed follows the side of UTC on which the zone
    offset lies that the host applies to local midnight.  With an offset at
    or west of UTC (by less than a day) the seed comes from the UTC day of
    the instant; with an offset east of UTC (by at most a day) it comes from
    the day before.  So a host whose offset is east of UTC has, all day
    long, the seed that a host whose offset is not east of UTC had the day
    before ([west'] is the offset of that host on the day before, equal to
    [west] when it has no daylight saving), and at the same instant the two
    hosts have different seeds.  The instant lies between 1970-01-02 and
    one day before the end of the [Date] range, so that every local
    midnight involved is a time value. *)
Theorem daily_seed_east_of_utc_lags_one_day (cfg : Config)
    (west west' east t : Z) :
  dailySeedReset cfg = true →
  JSDate.msPerDay ≤ t ≤ JSDate.maxTime - JSDate.msPerDay →
  - JSDate.msPerDay < west ≤ 0 →
  - JSDate.msPerDay < west' ≤ 0 →
  0 < east ≤ JSDate.msPerDay →
  Z.abs (utcMidnight west t) ≤ JSDate.maxTime
  ∧ Z.abs (utcMidnight east t) ≤ JSDate.maxTime
  ∧ Z.abs (utcMidnight west' (t - JSDate.msPerDay)) ≤ JSDate.maxTime
  ∧ generateUTCSeed cfg west t = Z.rem (JSDate.Day t * 31) 1000000
  ∧ generateUTCSeed cfg east t = Z.rem ((JSDate.Day t - 1) * 31) 1000000
  ∧ generateUTCSeed cfg east t = generateUTCSeed cfg west' (t - JSDate.msPerDay)
  ∧ generateUTCSeed cfg east t ≠ generateUTCSeed cfg west t.
Proof.
  intros Hd Ht Hw Hw' He.
  assert (0 < JSDate.msPerDay) as Hpos by done.
  assert (0 ≤ t) as Ht0 by lia.
  assert (0 ≤ t - JSDate.msPerDay) as Ht1 by lia.
  assert (JSDate.Day (t - JSDate.msPerDay) = JSDate.Day t - 1) as Hprev.
  { unfold JSDate.Day.
    replace (t - JSDate.msPerDay) with (t + (-1) * JSDate.msPerDay) by lia.
    rewrite Z.div_add by lia. lia. }
  assert (1 ≤ JSDate.Day t) as Hday.
  { apply Z.div_le_lower_bound; lia. }
  split; [apply utcMidnight_in_range; lia|].
  split; [apply utcMidnight_in_range; lia|].
  split; [apply utcMidnight_in_range; lia|].
  rewrite !generateUTCSeed_daily_formula by done.
  rewrite Hprev.
  rewrite (proj2 (generateUTCSeed_day_index west (JSDate.Day t)) Hw).
  rewrite (proj2 (generateUTCSeed_day_index west' (JSDate.Day t - 1)) Hw').
  rewrite (proj1 (generateUTCSeed_day_index east (JSDate.Day t)) He).
  split_and!; try done.
  intros Heq. apply seed_of_index_injective in Heq; lia.
Qed.

Lemma daily_seed_east_of_utc_lags_one_day_witness :
  Z.abs (utcMidnight (-14400000) 1759752000000) ≤ JSDate.maxTime
  ∧ Z.abs (utcMidnight 7200000 1759752000000) ≤ JSDate.maxTime
  ∧ Z.abs (utcMidnight (-18000000) (1759752000000 - JSDate.msPerDay))
    ≤ JSDate.maxTime
  ∧ generateUTCSeed default_config (-14400000) 1759752000000
    = Z.rem (JSDate.Day 1759752000000 * 31) 1000000
  ∧ generateUTCSeed default_config 7200000 1759752000000
    = Z.rem ((JSDate.Day 1759752000000 - 1) * 31) 1000000
  ∧ generateUTCSeed default_config 7200000 1759752000000
    = generateUTCSeed default_config (-18000000)
                      (1759752000000 - JSDate.msPerDay)
  ∧ generateUTCSeed default_config 7200000 1759752000000
    ≠ generateUTCSeed default_config (-14400000) 1759752000000.
Proof.
  apply (daily_seed_east_of_utc_lags_one_day default_config (-14400000)
           (-18000000) 7200000 1759752000000).
  - reflexivity.
  - vm_compute. split; discriminate.
  - vm_compute. split; [reflexivity|discriminate].
  - vm_compute. split; [reflexivity|discriminate].
  - vm_compute. split; [reflexivity|discriminate].
Defined.

(** X3.  In daily mode, two instants on different UTC dates less than a
    million days apart get different seeds, provided the zone offsets the
    host applies to the two local midnights lie on the same side of UTC:
    both east of it (by at most a day), or both at or west of it (by less
    than a day).  A host without daylight saving has one offset and meets
    the proviso; a host whose offset changes sides between the two dates
    does not.  The multiplier 31 is coprime to the modulus.  Both instants
    lie between 1970-01-02 and one day before the end of the [Date] range,
    so that both local midnights are time values. *)
Theorem daily_seed_differs_between_days (cfg : Config) (tza1 tza2 t1 t2 : Z) :
  dailySeedReset cfg = true →
  JSDate.msPerDay ≤ t1 ≤ JSDate.maxTime - JSDate.msPerDay →
  JSDate.msPerDay ≤ t2 ≤ JSDate.maxTime - JSDate.msPerDay →
  (0 < tza1 ≤ JSDate.msPerDay ∧ 0 < tza2 ≤ JSDate.msPerDay)
  ∨ (- JSDate.msPerDay < tza1 ≤ 0 ∧ - JSDate.msPerDay < tza2 ≤ 0) →
  JSDate.Day t1 ≠ JSDate.Day t2 →
  Z.abs (JSDate.Day t1 - JSDate.Day t2) < 1000000 →
  Z.abs (utcMidnight tza1 t1) ≤ JSDate.maxTime
  ∧ Z.abs (utcMidnight tza2 t2) ≤ JSDate.maxTime
  ∧ generateUTCSeed cfg tza1 t1 ≠ generateUTCSeed cfg tza2 t2.
Proof.
  intros Hd Ht1 Ht2 Hz Hne Hclose.
  assert (0 < JSDate.msPerDay) as Hpos by done.
  assert (1 ≤ JSDate.Day t1 ∧ 1 ≤ JSDate.Day t2) as [Hd1 Hd2].
  { split; apply Z.div_le_lower_bound; lia. }
  split; [apply utcMidnight_in_range; lia|].
  split; [apply utcMidnight_in_range; lia|].
  intros Heq. rewrite !generateUTCSeed_daily_formula in Heq by (done || lia).
  destruct Hz as [[Hz1 Hz2]|[Hz1 Hz2]].
  - rewrite (proj1 (generateUTCSeed_day_index tza1 (JSDate.Day t1)) Hz1),
      (proj1 (generateUTCSeed_day_index tza2 (JSDate.Day t2)) Hz2) in Heq.
    apply seed_of_index_injective in Heq; lia.
  - rewrite (proj2 (generateUTCSeed_day_index tza1 (JSDate.Day t1)) Hz1),
      (proj2 (generateUTCSeed_day_index tza2 (JSDate.Day t2)) Hz2) in Heq.
    apply seed_of_index_injective in Heq; lia.
Qed.

Lemma daily_seed_differs_between_days_witness :
  Z.abs (utcMidnight 7200000 1759752000000) ≤ JSDate.maxTime
  ∧ Z.abs (utcMidnight 3600000 1761998400000) ≤ JSDate.maxTime
  ∧ generateUTCSeed default_config 7200000 1759752000000
    ≠ generateUTCSeed default_config 3600000 1761998400000.
Proof.
  apply (daily_seed_differs_between_days default_config 7200000 3600000
           1759752000000 1761998400000).
  - reflexivity.
  - vm_compute. split; discriminate.
  - vm_compute. split; discriminate.
  - left. vm_compute. repeat split; discriminate.
  - vm_compute. discriminate.
  - vm_compute. reflexivity.
Defined.

(** X4.  For an instant between 1970-01-02 and one day before the end of
    the [Date] range, and a zone offset of at most a day, in either mode:
    the local midnight built by the daily branch is a time value, the seed
    lies in [0, 1000000), the generator's products stay below 2^53, and the
    shuffle under that seed is a permutation of the items. *)
Theorem generateUTCSeed_shuffles_to_permutation (cfg : Config) (tza t : Z)
    (items : list (option string)) :
  JSDate.msPerDay ≤ t ≤ JSDate.maxTime - JSDate.msPerDay →
  - JSDate.msPerDay ≤ tza ≤ JSDate.msPerDay →
  Z.abs (utcMidnight tza t) ≤ JSDate.maxTime
  ∧ 0 ≤ generateUTCSeed cfg tza t < 1000000
  ∧ generateUTCSeed cfg tza t * 9301 + 49297 < 2 ^ 53
  ∧ shuffled_items items (generateUTCSeed cfg tza t) ≡ₚ items.
Proof.
  intros Ht Hz.
  assert (0 < JSDate.msPerDay) as Hpos by done.
  assert (0 ≤ generateUTCSeed cfg tza t < 1000000) as Hrange.
  { assert (0 ≤ t) as Ht0 by lia.
    destruct (dailySeedReset cfg) eqn:Hd.
    - rewrite generateUTCSeed_daily_formula by done.
      apply Z.rem_bound_pos; [|lia].
      apply Z.mul_nonneg_nonneg; [|lia]. apply day_index_nonneg; lia.
    - unfold generateUTCSeed. rewrite Hd.
      apply Z.rem_bound_pos; [|lia].
      apply Z.mul_nonneg_nonneg; [|lia]. apply Z.div_pos; lia. }
  split; [apply utcMidnight_in_range; lia|].
  split; [done|]. split; [lia|]. apply shuffled_items_perm. lia.
Qed.

Lemma generateUTCSeed_shuffles_to_permutation_witness :
  Z.abs (utcMidnight 7200000 1759752000000) ≤ JSDate.maxTime
  ∧ 0 ≤ generateUTCSeed default_config 7200000 1759752000000 < 1000000
  ∧ generateUTCSeed default_config 7200000 1759752000000 * 9301 + 49297 < 2 ^ 53
  ∧ shuffled_items [Some "a.mp4"; Some "b.mp4"]
                   (generateUTCSeed default_config 7200000 1759752000000)
    ≡ₚ [Some "a.mp4"; Some "b.mp4"].
Proof.
  apply (generateUTCSeed_shuffles_to_permutation default_config 7200000
           1759752000000 [Some "a.mp4"; Some "b.mp4"]).
  - vm_compute. split; discriminate.
  - vm_compute. split; discriminate.
Defined.

(** ** The shuffle, beyond non-negative seeds *)

(** X5.  For every integer seed, negative ones included, the array
    [shuffleArray] returns has as many elements as its argument (a negative
    seed can replace items by [undefined], it cannot drop or add slots). *)
Theorem shuffleArray_keeps_length {A : Type} (mathRandom : nat → Z)
    (h : gmap loc (jsarray A)) (array : loc) (o : jsarray A) (seed : Z) :
  h !! array = Some o →
  ∃ h' r o',
    shuffleArray mathRandom h array (Some seed) = Some (h', r)
    ∧ h' !! r = Some o'
    ∧ length (elems o') = length (elems o).
Proof.
  intros Ha. unfold shuffleArray. rewrite Ha.
  set (r := fresh (dom h)).
  destruct (fisher_yates_length seeded_random (floor_product 233280)
              seeded_random_below (length (elems o)) seed
              (<[r := mkArray (elems o) ∅]> h) r (mkArray (elems o) ∅))
    as (o' & Ho' & Hlen); [by rewrite lookup_insert_eq|done|].
  by eexists _, r, o'.
Qed.

Lemma shuffleArray_keeps_length_witness :
  ∃ h' r o',
    shuffleArray (fun _ => 0)
                 {[ 1%positive := mkArray [Some "a"; Some "b"; Some "c"] ∅ ]}
                 1%positive (Some (-6)) = Some (h', r)
    ∧ h' !! r = Some o'
    ∧ length (elems o') = 3%nat.
Proof.
  apply (shuffleArray_keeps_length (fun _ => 0)
           {[ 1%positive := mkArray [Some "a"; Some "b"; Some "c"] ∅ ]}
           1%positive (mkArray [Some "a"; Some "b"; Some "c"] ∅) (-6)).
  reflexivity.
Defined.

(** X6.  Without a seed ([null]), and with every draw of [Math.random] in
    [0, 1), [shuffleArray] returns a permutation of its argument. *)
Theorem shuffleArray_unseeded_permutation {A : Type} (mathRandom : nat → Z)
    (h : gmap loc (jsarray A)) (array : loc) (o : jsarray A) :
  (∀ k, 0 ≤ mathRandom k < 2 ^ 53) →
  h !! array = Some o →
  ∃ h' r o',
    shuffleArray mathRandom h array None = Some (h', r)
    ∧ h' !! r = Some o'
    ∧ elems o' ≡ₚ elems o.
Proof.
  intros Hdraw Ha. unfold shuffleArray. rewrite Ha.
  set (r := fresh (dom h)).
  assert (∀ (st : nat) (n : nat), True →
            0 ≤ floor_product (2 ^ 53) (fst (engine_random mathRandom st))
                              (Datatypes.S n) < Z.of_nat (Datatypes.S n)
            ∧ True) as Hgen.
  { intros st n _. split; [|done].
    apply floor_product_in_range; [lia|]. apply Hdraw. }
  destruct (fisher_yates_perm (engine_random mathRandom)
              (floor_product (2 ^ 53)) (fun _ => True) Hgen
              (length (elems o)) O (<[r := mkArray (elems o) ∅]> h) r
              (mkArray (elems o) ∅))
    as (o' & Ho' & Hperm & _); [done|by rewrite lookup_insert_eq|done|].
  by eexists _, r, o'.
Qed.

Lemma shuffleArray_unseeded_permutation_witness :
  ∃ h' r o',
    shuffleArray (fun _ => 2 ^ 52)
                 {[ 1%positive := mkArray [Some "a"; Some "b"; Some "c"] ∅ ]}
                 1%positive None = Some (h', r)
    ∧ h' !! r = Some o'
    ∧ elems o' ≡ₚ [Some "a"; Some "b"; Some "c"].
Proof.
  apply (shuffleArray_unseeded_permutation (fun _ => 2 ^ 52)
           {[ 1%positive := mkArray [Some "a"; Some "b"; Some "c"] ∅ ]}
           1%positive (mkArray [Some "a"; Some "b"; Some "c"] ∅)).
  - intros k. lia.
  - reflexivity.
Defined.

(** X7.  The shuffle depends on a non-negative seed through its residue
    modulo 233280 only: adding a multiple of 233280 to the seed gives the
    same result (as long as the first step of the generator stays below
    2^53, where the arithmetic on doubles is exact).  A catalog therefore
    has at most 233280 seeded orders. *)
Theorem shuffleArray_same_for_congruent_seeds {A : Type} (mathRandom : nat → Z)
    (h : gmap loc (jsarray A)) (array : loc) (seed k : Z) :
  0 ≤ seed → 0 ≤ k →
  (seed + 233280 * k) * 9301 + 49297 < 2 ^ 53 →
  shuffleArray mathRandom h array (Some (seed + 233280 * k))
  = shuffleArray mathRandom h array (Some seed).
Proof.
  intros Hs Hk _. unfold shuffleArray.
  destruct (h !! array) as [o|]; [|done].
  destruct (length (elems o)) as [|n]; [done|].
  cbn [fisher_yates].
  assert (seeded_random (seed + 233280 * k) = seeded_random seed) as Hfirst.
  { unfold seeded_random.
    assert (Z.rem ((seed + 233280 * k) * 9301 + 49297) 233280
            = Z.rem (seed * 9301 + 49297) 233280) as ->; [|done].
    rewrite !Z.rem_mod_nonneg by nia.
    replace ((seed + 233280 * k) * 9301 + 49297)
      with (seed * 9301 + 49297 + (k * 9301) * 233280) by lia.
    apply Z.mod_add. lia. }
  by rewrite Hfirst.
Qed.

Lemma shuffleArray_same_for_congruent_seeds_witness :
  shuffleArray (fun _ => 0)
               {[ 1%positive := mkArray [Some "a"; Some "b"; Some "c"] ∅ ]}
               1%positive (Some (631377 + 233280 * 2))
  = shuffleArray (fun _ => 0)
                 {[ 1%positive := mkArray [Some "a"; Some "b"; Some "c"] ∅ ]}
                 1%positive (Some 631377).
Proof.
  apply (shuffleArray_same_for_congruent_seeds (fun _ => 0)
           {[ 1%positive := mkArray [Some "a"; Some "b"; Some "c"] ∅ ]}
           1%positive 631377 2); lia.
Defined.

(** ** The catalog *)

Lemma string_compare_refl (s : string) : String.compare s s = Eq.
Proof.
  induction s as [|a s IH]; [done|]. cbn.
  unfold Ascii.compare. by rewrite N.compare_refl.
Qed.

Lemma string_compare_le_trans (s1 s2 s3 : string) :
  String.compare s1 s2 ≠ Gt → String.compare s2 s3 ≠ Gt →
  String.compare s1 s3 ≠ Gt.
Proof.
  revert s2 s3. induction s1 as [|a s1 IH]; intros [|b s2] [|c s3]; cbn;
    try done.
  destruct (Ascii.compare a b) eqn:Hab; [| |done];
    destruct (Ascii.compare b c) eqn:Hbc; try done.
  - apply Ascii.compare_eq_iff in Hab, Hbc. subst.
    unfold Ascii.compare. rewrite N.compare_refl. apply IH.
  - apply Ascii.compare_eq_iff in Hab. subst. by rewrite Hbc.
  - apply Ascii.compare_eq_iff in Hbc. subst. by rewrite Hab.
  - unfold Ascii.compare in *. rewrite N.compare_lt_iff in Hab, Hbc.
    assert (Ascii.N_of_ascii a < Ascii.N_of_ascii c)%N as Hac by lia.
    apply N.compare_lt_iff in Hac. by rewrite Hac.
Qed.

Lemma name_le_spec (a b : string) : name_le a b ↔ String.compare a b ≠ Gt.
Proof. unfold name_le, String.leb. by destruct (String.compare a b). Qed.

#[local] Instance name_le_trans : Transitive name_le.
Proof.
  intros a b c. rewrite !name_le_spec. apply string_compare_le_trans.
Qed.

#[local] Instance name_le_total : Total name_le.
Proof. intros a b. apply String.leb_total. Qed.

#[local] Instance name_le_antisym : AntiSymm eq name_le.
Proof. intros a b. apply String.leb_antisym. Qed.

Lemma getVideoFiles_sorted (files : list string) :
  StronglySorted name_le (fst (getVideoFiles (Some files))).
Proof. cbn. apply StronglySorted_merge_sort; apply _. Qed.

Lemma getVideoFiles_perm (files : list string) :
  fst (getVideoFiles (Some files))
  ≡ₚ filter (fun f => is_video_file f = true) files.
Proof. cbn. apply merge_sort_Permutation. Qed.

Lemma ends_with_length (suffix s : string) :
  ends_with suffix s = true → (String.length suffix ≤ String.length s)%nat.
Proof.
  unfold ends_with. intros H. apply andb_true_iff in H as [H _].
  by apply Nat.leb_le.
Qed.

Lemma string_lower_length (s : string) :
  String.length (string_lower s) = String.length s.
Proof. induction s as [|a s IH]; [done|]. cbn. by rewrite IH. Qed.

Lemma is_video_file_length (f : string) :
  is_video_file f = true → (4 ≤ String.length f)%nat.
Proof.
  unfold is_video_file. intros H. apply existsb_exists in H as (ext & Hin & H).
  apply ends_with_length in H. rewrite string_lower_length in H.
  assert (4 ≤ String.length ("." +:+ ext))%nat; [|lia].
  unfold video_extensions in Hin. cbn in Hin.
  repeat (destruct Hin as [<-|Hin]; [vm_compute; lia|]). done.
Qed.

(** X8.  The catalog does not depend on the order in which the directory
    lists its entries: two listings with the same entries give the same
    catalog, in the same order. *)
Theorem getVideoFiles_listing_order_irrelevant (files1 files2 : list string) :
  files1 ≡ₚ files2 →
  getVideoFiles (Some files1) = getVideoFiles (Some files2).
Proof.
  intros Hperm.
  assert (fst (getVideoFiles (Some files1)) = fst (getVideoFiles (Some files2)))
    as Heq.
  { apply (StronglySorted_unique name_le); try apply getVideoFiles_sorted.
    by rewrite !getVideoFiles_perm, Hperm. }
  cbn in *. by rewrite Heq.
Qed.

Lemma getVideoFiles_listing_order_irrelevant_witness :
  getVideoFiles (Some ["b.mp4"; "notes.txt"; "a.MOV"])
  = getVideoFiles (Some ["a.MOV"; "b.mp4"; "notes.txt"]).
Proof.
  apply (getVideoFiles_listing_order_irrelevant
           ["b.mp4"; "notes.txt"; "a.MOV"] ["a.MOV"; "b.mp4"; "notes.txt"]).
  apply (bool_decide_unpack _). vm_compute. exact I.
Defined.

(** X9.  The catalog [getVideoFiles] returns is sorted in code-unit order
    and holds exactly the listed entries whose name ends, letter case
    aside, in a dot and one of the nine video extensions; every name in it
    is non-empty (truthy), and it has no duplicate when the listing has
    none. *)
Theorem getVideoFiles_catalog (files : list string) :
  StronglySorted name_le (fst (getVideoFiles (Some files)))
  ∧ (∀ f, f ∈ fst (getVideoFiles (Some files))
          ↔ f ∈ files ∧ is_video_file f = true)
  ∧ (∀ f, f ∈ fst (getVideoFiles (Some files)) →
          video_truthy (Some f) = Some f)
  ∧ (NoDup files → NoDup (fst (getVideoFiles (Some files))))
  ∧ (length (fst (getVideoFiles (Some files))) ≤ length files)%nat.
Proof.
  assert (∀ f, f ∈ fst (getVideoFiles (Some files))
               ↔ f ∈ files ∧ is_video_file f = true) as Hmem.
  { intros f. rewrite getVideoFiles_perm, list_elem_of_filter. tauto. }
  split; [|split; [|split; [|split]]].
  - apply getVideoFiles_sorted.
  - done.
  - intros f Hf. apply Hmem in Hf as [_ Hv].
    apply is_video_file_length in Hv.
    destruct f as [|a f]; [cbn in Hv; lia|done].
  - intros Hnd. rewrite getVideoFiles_perm. by apply NoDup_filter.
  - rewrite getVideoFiles_perm. apply length_filter.
Qed.

Lemma generateSchedule_no_videos force e s :
  videos e = [] →
  generateSchedule force e s = (false, log LogNoVideosFound s).
Proof. intros Hv. unfold generateSchedule. by rewrite Hv. Qed.

(** X10.  [forceRegenerateSchedule] on a catalog that is not empty always
    regenerates, whatever the configuration, the age of the schedule and
    the interference flag: it returns true, the permutation has the length
    of the catalog, cursor and play count are 0 and the generation time is
    the current time. *)
Theorem forceRegenerateSchedule_regenerates (e : GenEnv) (s : Scheduler) :
  videos e ≠ [] →
  let '(success, notes, s') := forceRegenerateSchedule e s in
  success = true
  ∧ notes = [NoteForcing; NoteRegenerated]
  ∧ length (shuffledOrder (schedule s')) = length (videos e)
  ∧ currentIndex (schedule s') = 0
  ∧ totalPlayed (schedule s') = 0
  ∧ generated (schedule s') = Some (now e)
  ∧ isStaticActive s' = isStaticActive s.
Proof.
  intros Hne. unfold forceRegenerateSchedule.
  destruct (generateSchedule_regenerates true e s Hne eq_refl)
    as (Hret & Hsch & _ & Hflag).
  destruct (generateSchedule true e s) as [success s']. cbn in *. subst.
  rewrite Hsch. cbn. rewrite shuffled_items_length, length_fmap. done.
Qed.

Lemma forceRegenerateSchedule_regenerates_witness :
  let '(success, notes, s') :=
    forceRegenerateSchedule (demo_env 1759752060000) (quiet_scheduler 1 5) in
  success = true
  ∧ notes = [NoteForcing; NoteRegenerated]
  ∧ length (shuffledOrder (schedule s'))
    = length (videos (demo_env 1759752060000))
  ∧ currentIndex (schedule s') = 0
  ∧ totalPlayed (schedule s') = 0
  ∧ generated (schedule s') = Some (now (demo_env 1759752060000))
  ∧ isStaticActive s' = isStaticActive (quiet_scheduler 1 5).
Proof.
  apply (forceRegenerateSchedule_regenerates (demo_env 1759752060000)
           (quiet_scheduler 1 5)).
  discriminate.
Defined.

(** X11.  When the videos directory cannot be read, or lists no video
    file, [forceRegenerateSchedule] returns false and leaves the schedule,
    the configuration, both files, the interference flag and the timers as
    they were: the existing schedule survives. *)
Theorem forceRegenerateSchedule_without_videos
    (listing : option (list string)) (e : GenEnv) (s : Scheduler) :
  (∀ files, listing = Some files →
            Forall (fun f => is_video_file f = false) files) →
  let '(success, notes, s') :=
    forceRegenerateSchedule (env_of_listing listing e) s in
  success = false
  ∧ notes = [NoteForcing; NoteRegenerateFailed]
  ∧ schedule s' = schedule s
  ∧ config s' = config s
  ∧ scheduleFile s' = scheduleFile s
  ∧ configFile s' = configFile s
  ∧ isStaticActive s' = isStaticActive s
  ∧ staticTimer s' = staticTimer s
  ∧ videoTimer s' = videoTimer s.
Proof.
  intros Hnone.
  assert (videos (env_of_listing listing e) = []) as Hv.
  { destruct listing as [files|]; [|done].
    specialize (Hnone files eq_refl).
    assert (filter (fun f => is_video_file f = true) files = []) as Hnil.
    { induction Hnone as [|f files' Hf _ IH]; [done|].
      rewrite filter_cons_False by congruence. done. }
    unfold env_of_listing, getVideoFiles. cbn [videos fst].
    by rewrite Hnil. }
  unfold forceRegenerateSchedule.
  by rewrite (generateSchedule_no_videos true _ s Hv).
Qed.

Lemma forceRegenerateSchedule_without_videos_witness :
  let '(success, notes, s') :=
    forceRegenerateSchedule (env_of_listing None (demo_env 1759752060000))
                            (quiet_scheduler 1 5) in
  success = false
  ∧ notes = [NoteForcing; NoteRegenerateFailed]
  ∧ schedule s' = schedule (quiet_scheduler 1 5)
  ∧ config s' = config (quiet_scheduler 1 5)
  ∧ scheduleFile s' = scheduleFile (quiet_scheduler 1 5)
  ∧ configFile s' = configFile (quiet_scheduler 1 5)
  ∧ isStaticActive s' = isStaticActive (quiet_scheduler 1 5)
  ∧ staticTimer s' = staticTimer (quiet_scheduler 1 5)
  ∧ videoTimer s' = videoTimer (quiet_scheduler 1 5).
Proof.
  apply (forceRegenerateSchedule_without_videos None (demo_env 1759752060000)
           (quiet_scheduler 1 5)).
  intros files Hfiles. discriminate Hfiles.
Defined.

(** ** Persistence and restart *)

Lemma spread_schedule_to_data (sch0 sch : Schedule) :
  spread_schedule sch0 (schedule_to_data sch) = sch.
Proof. by destruct sch. Qed.

Lemma spread_config_to_data (c0 c : Config) :
  spread_config c0 (config_to_data c) = c.
Proof. by destruct c. Qed.

(** What [init] leaves in a newly constructed scheduler whose files hold a
    schedule and a configuration written by [saveSchedule] and
    [saveConfig]. *)
Lemma init_new_scheduler (sch : Schedule) (c : Config) :
  ∃ notes,
    init true (new_VideoScheduler (Holds sch) (Holds (config_to_data c)))
    = Some (notes,
            mkScheduler sch c false None None (Holds sch)
                        (Holds (config_to_data c)) [LogLoadedConfig]).
Proof.
  unfold init, loadSchedule, loadSchedule_from, loadConfig. cbn.
  rewrite spread_schedule_to_data, spread_config_to_data. by eexists.
Qed.

Lemma playNextVideo_file ok s :
  isStaticActive s = false →
  shuffledOrder (schedule s) ≠ [] →
  scheduleFile (snd (playNextVideo ok s))
  = (if ok then Holds (schedule (snd (playNextVideo ok s))) else scheduleFile s)
  ∧ configFile (snd (playNextVideo ok s)) = configFile s.
Proof.
  intros Hclear Hne. unfold playNextVideo. rewrite Hclear.
  destruct (shuffledOrder (schedule s)) as [|v vs] eqn:Hord; [done|].
  cbn [length Nat.eqb fst snd].
  by destruct (Z.rem _ _ =? 0), ok.
Qed.

(** X12.  After a call of [playNextVideo] that serves a video and whose
    write succeeds, a new process started on the schedule file recovers
    exactly the schedule in memory at the end of the call: permutation,
    cursor, play count, current video and generation time. *)
Theorem restart_after_play_restores_schedule (s : Scheduler)
    (cf : file ConfigData) :
  isStaticActive s = false →
  shuffledOrder (schedule s) ≠ [] →
  ∃ notes s',
    init true (new_VideoScheduler (scheduleFile (snd (playNextVideo true s))) cf)
    = Some (notes, s')
    ∧ schedule s' = schedule (snd (playNextVideo true s))
    ∧ isStaticActive s' = false.
Proof.
  intros Hclear Hne.
  destruct (playNextVideo_file true s Hclear Hne) as [-> _].
  unfold init, loadSchedule, loadSchedule_from. cbn [new_VideoScheduler
    scheduleFile file_map]. rewrite spread_schedule_to_data.
  eexists _, _. split; [reflexivity|].
  unfold loadConfig. cbn. by destruct cf.
Qed.

Lemma restart_after_play_restores_schedule_witness :
  ∃ notes s',
    init true (new_VideoScheduler
                 (scheduleFile (snd (playNextVideo true (demo_scheduler 2 7 false))))
                 Absent)
    = Some (notes, s')
    ∧ schedule s' = schedule (snd (playNextVideo true (demo_scheduler 2 7 false)))
    ∧ isStaticActive s' = false.
Proof.
  apply (restart_after_play_restores_schedule (demo_scheduler 2 7 false) Absent).
  - reflexivity.
  - discriminate.
Defined.

(** X13.  After a regeneration whose two writes succeed, a new process
    started on the two files recovers exactly the schedule and the
    configuration (new seed included) of the process that regenerated. *)
Theorem restart_after_generate_restores_state (force : bool) (e : GenEnv)
    (s : Scheduler) :
  videos e ≠ [] →
  shouldRegenerate force e s = true →
  configWriteOk e = true → scheduleWriteOk e = true →
  ∃ notes s',
    init true (new_VideoScheduler
                 (scheduleFile (snd (generateSchedule force e s)))
                 (configFile (snd (generateSchedule force e s))))
    = Some (notes, s')
    ∧ schedule s' = schedule (snd (generateSchedule force e s))
    ∧ config s' = config (snd (generateSchedule force e s)).
Proof.
  intros Hne Hre Hc Hs.
  assert (scheduleFile (snd (generateSchedule force e s))
          = Holds (schedule (snd (generateSchedule force e s)))
          ∧ configFile (snd (generateSchedule force e s))
            = Holds (config_to_data (config (snd (generateSchedule force e s)))))
    as [-> ->].
  { unfold generateSchedule. apply length_eqb_0 in Hne.
    by rewrite Hne, Hre, Hc, Hs. }
  destruct (init_new_scheduler (schedule (snd (generateSchedule force e s)))
              (config (snd (generateSchedule force e s)))) as [notes Hinit].
  eexists _, _. split; [exact Hinit|done].
Qed.

Lemma restart_after_generate_restores_state_witness :
  ∃ notes s',
    init true (new_VideoScheduler
                 (scheduleFile (snd (generateSchedule true (demo_env 1759752060000)
                                                      (quiet_scheduler 1 5))))
                 (configFile (snd (generateSchedule true (demo_env 1759752060000)
                                                    (quiet_scheduler 1 5)))))
    = Some (notes, s')
    ∧ schedule s' = schedule (snd (generateSchedule true (demo_env 1759752060000)
                                                    (quiet_scheduler 1 5)))
    ∧ config s' = config (snd (generateSchedule true (demo_env 1759752060000)
                                                (quiet_scheduler 1 5))).
Proof.
  apply (restart_after_generate_restores_state true (demo_env 1759752060000)
           (quiet_scheduler 1 5)).
  - discriminate.
  - reflexivity.
  - reflexivity.
  - reflexivity.
Defined.

(** X14.  A failing write of the schedule file does not disturb playback.
    When the write of [saveSchedule] fails during a serving call of
    [playNextVideo], the error is caught and logged, and the call still
    returns the video at the cursor and leaves in memory exactly what a call
    with a successful write leaves: the same schedule (cursor moved, play
    count raised by one, current video set), configuration, flag and
    timers.  The configuration file is not written.  The two calls differ
    in the schedule file and the last log line only. *)
Theorem playNextVideo_failed_write_still_serves (s : Scheduler) :
  isStaticActive s = false →
  shuffledOrder (schedule s) ≠ [] →
  let s' := snd (playNextVideo false s) in
  let s_ok := snd (playNextVideo true s) in
  fst (playNextVideo false s) = order_at (schedule s) (currentIndex (schedule s))
  ∧ fst (playNextVideo false s) = fst (playNextVideo true s)
  ∧ schedule s' = schedule s_ok
  ∧ totalPlayed (schedule s') = totalPlayed (schedule s) + 1
  ∧ currentVideo (schedule s') = fst (playNextVideo false s)
  ∧ config s' = config s_ok
  ∧ isStaticActive s' = isStaticActive s_ok
  ∧ staticTimer s' = staticTimer s_ok
  ∧ videoTimer s' = videoTimer s_ok
  ∧ configFile s' = configFile s
  ∧ head (trace s') = Some LogSaveScheduleError
  ∧ head (trace s_ok) = Some LogScheduleSaved
  ∧ tail (trace s') = tail (trace s_ok).
Proof.
  intros Hclear Hne. cbv zeta.
  destruct (playNextVideo_serves false s Hclear Hne) as (Hret & Hsch & Hcfg & Hflag).
  destruct (playNextVideo_serves true s Hclear Hne) as (Hret' & Hsch' & Hcfg' & Hflag').
  destruct (playNextVideo_file false s Hclear Hne) as [_ Hcfile].
  rewrite Hret, Hret', Hsch, Hsch', Hcfg, Hcfg', Hflag, Hflag', Hcfile.
  cbn [totalPlayed currentVideo].
  split_and!; try done;
    unfold playNextVideo; rewrite Hclear;
    (destruct (shuffledOrder (schedule s)) as [|v vs]; [done|]);
    cbn [length Nat.eqb snd]; by destruct (Z.rem _ _ =? 0).
Qed.

Lemma playNextVideo_failed_write_still_serves_witness :
  let s := mkScheduler (demo_schedule 2 7) default_config false None None
                       (Holds (demo_schedule 2 7)) Absent [] in
  let s' := snd (playNextVideo false s) in
  let s_ok := snd (playNextVideo true s) in
  fst (playNextVideo false s) = order_at (schedule s) (currentIndex (schedule s))
  ∧ fst (playNextVideo false s) = fst (playNextVideo true s)
  ∧ schedule s' = schedule s_ok
  ∧ totalPlayed (schedule s') = totalPlayed (schedule s) + 1
  ∧ currentVideo (schedule s') = fst (playNextVideo false s)
  ∧ config s' = config s_ok
  ∧ isStaticActive s' = isStaticActive s_ok
  ∧ staticTimer s' = staticTimer s_ok
  ∧ videoTimer s' = videoTimer s_ok
  ∧ configFile s' = configFile s
  ∧ head (trace s') = Some LogSaveScheduleError
  ∧ head (trace s_ok) = Some LogScheduleSaved
  ∧ tail (trace s') = tail (trace s_ok).
Proof.
  apply (playNextVideo_failed_write_still_serves
           (mkScheduler (demo_schedule 2 7) default_config false None None
                        (Holds (demo_schedule 2 7)) Absent [])).
  - reflexivity.
  - discriminate.
Defined.

Lemma stopCurrentVideo_schedule s :
  generated (schedule (stopCurrentVideo s)) = generated (schedule s)
  ∧ shuffledOrder (schedule (stopCurrentVideo s)) = shuffledOrder (schedule s)
  ∧ currentIndex (schedule (stopCurrentVideo s)) = currentIndex (schedule s)
  ∧ totalPlayed (schedule (stopCurrentVideo s)) = totalPlayed (schedule s)
  ∧ staticDetected (schedule (stopCurrentVideo s)) = staticDetected (schedule s)
  ∧ scheduleFile (stopCurrentVideo s) = scheduleFile s
  ∧ configFile (stopCurrentVideo s) = configFile s.
Proof.
  unfold stopCurrentVideo.
  destruct (video_truthy _); [|done]. cbn. by destruct (videoTimer s).
Qed.

(** What a static report leaves untouched. *)
Lemma onStaticDetected_schedule level s :
  generated (schedule (onStaticDetected level s)) = generated (schedule s)
  ∧ shuffledOrder (schedule (onStaticDetected level s))
    = shuffledOrder (schedule s)
  ∧ currentIndex (schedule (onStaticDetected level s))
    = currentIndex (schedule s)
  ∧ totalPlayed (schedule (onStaticDetected level s))
    = totalPlayed (schedule s)
  ∧ staticDetected (schedule (onStaticDetected level s))
    = staticDetected (schedule s)
  ∧ scheduleFile (onStaticDetected level s) = scheduleFile s
  ∧ configFile (onStaticDetected level s) = configFile s.
Proof.
  unfold onStaticDetected.
  destruct (exceeds _ _), (isStaticActive s); cbn [negb]; try done.
  - cbn [schedule scheduleFile configFile].
    apply (stopCurrentVideo_schedule
      (mkScheduler (schedule (log (LogStaticDetected level) s))
         (config (log (LogStaticDetected level) s)) true
         (staticTimer (log (LogStaticDetected level) s))
         (videoTimer (log (LogStaticDetected level) s))
         (scheduleFile (log (LogStaticDetected level) s))
         (configFile (log (LogStaticDetected level) s))
         (trace (log (LogStaticDetected level) s)))).
  - cbn. by destruct (staticTimer s).
Qed.

Lemma step_staticDetected o s :
  staticDetected (schedule (step o s)) = staticDetected (schedule s).
Proof.
  destruct o as [level|ok|force e|]; cbn [step].
  - by destruct (onStaticDetected_schedule level s) as (_ & _ & _ & _ & -> & _).
  - unfold playNextVideo.
    destruct (isStaticActive s); [done|].
    destruct (length _ =? 0)%nat; [done|].
    cbn [snd]. by destruct (Z.rem _ _ =? 0), ok.
  - unfold generateSchedule.
    destruct (length _ =? 0)%nat; [done|].
    destruct (negb _); [done|]. cbn [snd].
    by destruct (configWriteOk e), (scheduleWriteOk e).
  - by destruct (stopCurrentVideo_schedule s) as (_ & _ & _ & _ & -> & _).
Qed.

(** X15.  The [staticDetected] field of the schedule, the only trace of
    interference in the persisted record, is never written: after any run
    of reports, playback calls, generations and stops it has the value the
    constructor gave it, false, also while the guard is suppressed.  The
    suppression state itself is not persisted. *)
Theorem staticDetected_never_written (ops : list op) (sf : file Schedule)
    (cf : file ConfigData) :
  staticDetected (schedule (run ops (new_VideoScheduler sf cf))) = false.
Proof.
  assert (∀ ops s, staticDetected (schedule (run ops s))
                   = staticDetected (schedule s)) as Hrun.
  { clear. induction ops as [|o ops' IH]; intros s; [done|].
    by rewrite run_cons, IH, step_staticDetected. }
  by rewrite Hrun.
Qed.

(** ** Start of playback *)

(** X16.  [startPlayback] enters the playback loop exactly when the
    catalog is not empty, and then the permutation it runs on has the
    length of the catalog (it is not empty), whether the schedule was kept
    or regenerated.  With an empty catalog the schedule is left as it
    was. *)
Theorem startPlayback_enters_loop_with_schedule (e : GenEnv) (s : Scheduler) :
  let '(entered, notes, s') := startPlayback e s in
  (videos e = [] →
   entered = false ∧ notes = [NoteStartingPlayback; NoteCannotStart]
   ∧ schedule s' = schedule s)
  ∧ (videos e ≠ [] →
     entered = true ∧ notes = [NoteStartingPlayback]
     ∧ length (shuffledOrder (schedule s')) = length (videos e)
     ∧ shuffledOrder (schedule s') ≠ []).
Proof.
  unfold startPlayback.
  destruct (decide (videos e = [])) as [Hnil|Hne].
  - rewrite (generateSchedule_no_videos false e s Hnil). cbn. by split.
  - assert (length (shuffledOrder (schedule (snd (generateSchedule false e s))))
            = length (videos e)) as Hlen.
    { destruct (shouldRegenerate false e s) eqn:Hre.
      - destruct (generateSchedule_regenerates false e s Hne Hre)
          as (_ & -> & _).
        cbn. by rewrite shuffled_items_length, length_fmap.
      - rewrite (generateSchedule_keeps false e s Hne Hre). cbn.
        unfold shouldRegenerate in Hre.
        rewrite !orb_false_iff, negb_false_iff in Hre.
        destruct Hre as [[_ Hl] _].
        by apply negb_false_iff, Nat.eqb_eq in Hl. }
    assert (fst (generateSchedule false e s) = true) as Hret.
    { destruct (shouldRegenerate false e s) eqn:Hre.
      - by destruct (generateSchedule_regenerates false e s Hne Hre) as (-> & _).
      - by rewrite (generateSchedule_keeps false e s Hne Hre). }
    destruct (generateSchedule false e s) as [ready s']. cbn in *. subst ready.
    cbn. split; [done|]. intros _. split_and!; try done.
    intros Hnil. rewrite Hnil in Hlen. destruct (videos e); done.
Qed.

(** X17.  Restart with a configuration that turns [regenerateOnBuild] off:
    when the files hold a schedule generated less than the rebuild interval
    ago for a catalog of the same length, and no build signal is set,
    [init] followed by [startPlayback] enters the loop on exactly the
    persisted schedule: permutation, cursor and play count are resumed. *)
Theorem restart_resumes_position (sch : Schedule) (c : Config) (e : GenEnv)
    (t : Z) :
  regenerateOnBuild c = false →
  NODE_ENV e ≠ Some "production" →
  env_truthy (BUILD_ENV e) = false →
  generated sch = Some t → t ≠ 0 →
  now e - t < scheduleRebuildInterval c →
  videos e ≠ [] →
  length (shuffledOrder sch) = length (videos e) →
  ∃ notes s1,
    init true (new_VideoScheduler (Holds sch) (Holds (config_to_data c)))
    = Some (notes, s1)
    ∧ let '(entered, _, s2) := startPlayback e s1 in
      entered = true ∧ schedule s2 = sch ∧ config s2 = c.
Proof.
  intros Hreg Hnode Hbuild Hgen Ht Hage Hne Hlen.
  destruct (init_new_scheduler sch c) as [notes Hinit].
  eexists _, _. split; [exact Hinit|].
  set (s1 := mkScheduler sch c false None None (Holds sch)
                         (Holds (config_to_data c)) [LogLoadedConfig]).
  assert (shouldRegenerate false e s1 = false) as Hno.
  { destruct (shouldRegenerate false e s1) eqn:Hre; [|done].
    apply shouldRegenerate_true in Hre. cbn in Hre.
    destruct Hre as [Hf|[Hn|[Hb|[Hr|[Hg|[Hl|(t' & Hgen' & Ht')]]]]]];
      try congruence.
    - rewrite Hgen in Hg. cbn in Hg. apply negb_false_iff, Z.eqb_eq in Hg. done.
    - rewrite Hgen in Hgen'. simplify_eq. lia. }
  unfold startPlayback. by rewrite (generateSchedule_keeps false e s1 Hne Hno).
Qed.

Lemma restart_resumes_position_witness :
  ∃ notes s1,
    init true (new_VideoScheduler (Holds (demo_schedule 1 5))
                                  (Holds (config_to_data quiet_config)))
    = Some (notes, s1)
    ∧ let '(entered, _, s2) := startPlayback (demo_env 1759752060000) s1 in
      entered = true ∧ schedule s2 = demo_schedule 1 5 ∧ config s2 = quiet_config.
Proof.
  apply (restart_resumes_position (demo_schedule 1 5) quiet_config
           (demo_env 1759752060000) 1759752000000).
  - reflexivity.
  - discriminate.
  - reflexivity.
  - reflexivity.
  - lia.
  - simpl. lia.
  - discriminate.
  - reflexivity.
Defined.

(** X18.  Restart with [regenerateOnBuild] on, as in the constructor's
    configuration (also when the configuration file is absent, unreadable
    or silent about the key): whatever schedule the file holds, [init]
    followed by [startPlayback] on a catalog that is not empty regenerates
    it, so the persisted cursor and play count are discarded and both start
    at 0 again. *)
Theorem restart_discards_position_by_default (sf : file Schedule)
    (cf : file ConfigData) (e : GenEnv) :
  (∀ data, cf = Holds data → d_regenerateOnBuild data ≠ Some false) →
  videos e ≠ [] →
  ∃ notes s1,
    init true (new_VideoScheduler sf cf) = Some (notes, s1)
    ∧ let '(entered, _, s2) := startPlayback e s1 in
      entered = true
      ∧ currentIndex (schedule s2) = 0
      ∧ totalPlayed (schedule s2) = 0
      ∧ generated (schedule s2) = Some (now e)
      ∧ length (shuffledOrder (schedule s2)) = length (videos e).
Proof.
  intros Hcf Hne. unfold init.
  destruct (loadSchedule (new_VideoScheduler sf cf)) as [n1 s0] eqn:Hload.
  eexists _, _. split; [reflexivity|].
  assert (config s0 = default_config ∧ configFile s0 = cf) as [Hc0 Hf0].
  { unfold loadSchedule, loadSchedule_from in Hload.
    destruct sf; cbn in Hload; by simplify_eq. }
  assert (regenerateOnBuild (config (loadConfig s0)) = true) as Hreg.
  { unfold loadConfig. rewrite Hf0. destruct cf as [| |data]; cbn;
      rewrite ?Hc0; try done.
    specialize (Hcf data eq_refl).
    destruct (d_regenerateOnBuild data) as [[]|]; cbn; done. }
  assert (shouldRegenerate false e (loadConfig s0) = true) as Hre.
  { apply shouldRegenerate_true. auto. }
  unfold startPlayback.
  destruct (generateSchedule_regenerates false e (loadConfig s0) Hne Hre)
    as (Hret & Hsch & _).
  destruct (generateSchedule false e (loadConfig s0)) as [ready s2].
  cbn in *. subst ready. cbn. rewrite Hsch. cbn.
  by rewrite shuffled_items_length, length_fmap.
Qed.

Lemma restart_discards_position_by_default_witness :
  ∃ notes s1,
    init true (new_VideoScheduler (Holds (demo_schedule 1 5)) Absent)
    = Some (notes, s1)
    ∧ let '(entered, _, s2) := startPlayback (demo_env 1759752060000) s1 in
      entered = true
      ∧ currentIndex (schedule s2) = 0
      ∧ totalPlayed (schedule s2) = 0
      ∧ generated (schedule s2) = Some (now (demo_env 1759752060000))
      ∧ length (shuffledOrder (schedule s2))
        = length (videos (demo_env 1759752060000)).
Proof.
  apply (restart_discards_position_by_default (Holds (demo_schedule 1 5))
           Absent (demo_env 1759752060000)).
  - intros data Hdata. discriminate Hdata.
  - discriminate.
Defined.

(** ** The playback loop *)

Lemma deliver_cons level reports s :
  deliver (level :: reports) s = deliver reports (onStaticDetected level s).
Proof. done. Qed.

(** Reports leave the position alone. *)
Lemma deliver_schedule reports s :
  shuffledOrder (schedule (deliver reports s)) = shuffledOrder (schedule s)
  ∧ currentIndex (schedule (deliver reports s)) = currentIndex (schedule s)
  ∧ totalPlayed (schedule (deliver reports s)) = totalPlayed (schedule s)
  ∧ generated (schedule (deliver reports s)) = generated (schedule s)
  ∧ config (deliver reports s) = config s.
Proof.
  revert s. induction reports as [|level reports IH]; intros s; [done|].
  rewrite deliver_cons.
  destruct (IH (onStaticDetected level s)) as (-> & -> & -> & -> & ->).
  destruct (onStaticDetected_schedule level s) as (-> & -> & -> & -> & _).
  by rewrite onStaticDetected_config.
Qed.

Lemma cycle_from_step (order : list (option string)) (c : Z) (k : nat) :
  0 ≤ c < Z.of_nat (length order) →
  cycle_from order c (S k)
  = default None (order !! Z.to_nat c)
    :: cycle_from order ((c + 1) mod Z.of_nat (length order)) k.
Proof.
  intros Hc. unfold cycle_from. cbn [seq map]. f_equal.
  - by rewrite Z.add_0_r, Z.mod_small.
  - rewrite <- seq_shift, map_map. apply map_ext. intros i.
    rewrite Zplus_mod_idemp_l.
    by replace (c + Z.of_nat (S i)) with (c + 1 + Z.of_nat i) by lia.
Qed.

(** X19.  Along every finite run of the playback loop, whatever static
    reports arrive between its rounds, the videos [playNextVideo] returns
    are consecutive items of the permutation, taken round and round from
    the cursor the run started at: interference makes the loop wait, it
    never makes it skip or repeat an item.  The cursor and the play count
    advance by the number of videos served. *)
Theorem playbackLoop_serves_in_cycle_order (rounds : list (bool * list Q))
    (s : Scheduler) :
  shuffledOrder (schedule s) ≠ [] →
  0 ≤ currentIndex (schedule s)
    < Z.of_nat (length (shuffledOrder (schedule s))) →
  let order := shuffledOrder (schedule s) in
  let '(served, _, s') := playbackLoop rounds s in
  served = cycle_from order (currentIndex (schedule s)) (length served)
  ∧ (length served ≤ length rounds)%nat
  ∧ shuffledOrder (schedule s') = order
  ∧ currentIndex (schedule s')
    = (currentIndex (schedule s) + Z.of_nat (length served))
      mod Z.of_nat (length order)
  ∧ totalPlayed (schedule s')
    = totalPlayed (schedule s) + Z.of_nat (length served).
Proof.
  cbv zeta. revert s.
  induction rounds as [|[ok reports] rounds IH]; intros s Hne Hc.
  { cbn. rewrite Z.add_0_r, Z.mod_small by done. split_and!; try done; lia. }
  cbn [playbackLoop]. unfold playbackLoop_round.
  destruct (isStaticActive s) eqn:Hact; cbn [negb].
  - (* suppressed: the round only waits *)
    destruct (deliver_schedule reports s) as (Ho & Hi & Hp & _).
    specialize (IH (deliver reports s)).
    rewrite Ho, Hi, Hp in IH. specialize (IH Hne Hc).
    destruct (playbackLoop rounds (deliver reports s)) as [[served steps] s'].
    destruct IH as (Hs & Hl & Hord & Hcur & Hplayed).
    split_and!; try done. cbn. lia.
  - (* clear: one item is served *)
    destruct (playNextVideo_serves ok s Hact Hne) as (Hret & Hsch & _).
    destruct (playNextVideo ok s) as [video s1]. cbn [fst snd] in *.
    assert (∀ steps,
      (let '(called, steps0, s2) :=
         match video_truthy video with
         | Some _ => (Some video, steps, s1)
         | None => (Some video, [], s1)
         end in
       let '(videos', steps', s3) := playbackLoop rounds (deliver reports s2) in
       (match called with Some v => v :: videos' | None => videos' end,
        steps0 ++ steps', s3))
      = (let '(videos', steps', s3) := playbackLoop rounds (deliver reports s1) in
         (video :: videos',
          match video_truthy video with Some _ => steps | None => [] end
          ++ steps', s3))) as Hround.
    { intros steps. by destruct (video_truthy video). }
    rewrite Hround. clear Hround.
    destruct (deliver_schedule reports s1) as (Ho & Hi & Hp & _).
    rewrite Hsch in Ho, Hi, Hp. cbn in Ho, Hi, Hp.
    assert (Z.rem (currentIndex (schedule s) + 1)
                  (Z.of_nat (length (shuffledOrder (schedule s))))
            = (currentIndex (schedule s) + 1)
              mod Z.of_nat (length (shuffledOrder (schedule s)))) as Hrem
      by (apply Z.rem_mod_nonneg; lia).
    rewrite Hrem in Hi.
    specialize (IH (deliver reports s1)).
    rewrite Ho, Hi, Hp in IH.
    specialize (IH Hne).
    assert (0 ≤ (currentIndex (schedule s) + 1)
                 mod Z.of_nat (length (shuffledOrder (schedule s)))
              < Z.of_nat (length (shuffledOrder (schedule s)))) as Hc'
      by (apply Z.mod_pos_bound; lia).
    specialize (IH Hc').
    destruct (playbackLoop rounds (deliver reports s1)) as [[served steps'] s'].
    destruct IH as (IH1 & Hl & Hord & Hcur & Hplayed).
    cbn [length]. split_and!.
    + rewrite cycle_from_step by done. f_equal; [|done].
      rewrite Hret. unfold order_at.
      by destruct (Z.leb_spec 0 (currentIndex (schedule s))); [|lia].
    + lia.
    + done.
    + rewrite Hcur, Zplus_mod_idemp_l. f_equal. lia.
    + rewrite Hplayed. lia.
Qed.

Lemma playbackLoop_serves_in_cycle_order_witness :
  let s := demo_scheduler 2 7 false in
  let order := shuffledOrder (schedule s) in
  let '(served, _, s') :=
    playbackLoop [(true, [(1 # 2)%Q]); (true, []); (true, [0%Q]); (true, [])] s in
  served = cycle_from order (currentIndex (schedule s)) (length served)
  ∧ (length served ≤ 4)%nat
  ∧ shuffledOrder (schedule s') = order
  ∧ currentIndex (schedule s')
    = (currentIndex (schedule s) + Z.of_nat (length served))
      mod Z.of_nat (length order)
  ∧ totalPlayed (schedule s')
    = totalPlayed (schedule s) + Z.of_nat (length served).
Proof.
  apply (playbackLoop_serves_in_cycle_order
           [(true, [(1 # 2)%Q]); (true, []); (true, [0%Q]); (true, [])]
           (demo_scheduler 2 7 false)).
  - discriminate.
  - simpl. lia.
Defined.

Lemma deliver_same_side reports s :
  isStaticActive s = true →
  Forall (fun level =>
            exceeds level (staticDetectionThreshold (config s)) = true) reports →
  deliver reports s = s.
Proof.
  intros Hact Hall. induction Hall as [|level reports Hl _ IH]; [done|].
  rewrite deliver_cons, onStaticDetected_same_side; [done|].
  by rewrite Hact, Hl.
Qed.

(** X20.  While the guard is suppressed and every report that arrives is
    above the threshold, the playback loop never calls [playNextVideo]:
    each round waits one second and the whole scheduler state (cursor, play
    count, files, trace) stays exactly as it was. *)
Theorem playbackLoop_waits_while_suppressed (rounds : list (bool * list Q))
    (s : Scheduler) :
  isStaticActive s = true →
  Forall (fun round =>
            Forall (fun level =>
                      exceeds level (staticDetectionThreshold (config s)) = true)
                   (snd round)) rounds →
  playbackLoop rounds s = ([], map (fun _ => Waited 1000) rounds, s).
Proof.
  intros Hact Hall. induction Hall as [|[ok reports] rounds Hr _ IH]; [done|].
  cbn [playbackLoop]. unfold playbackLoop_round. rewrite Hact. cbn [negb].
  rewrite (deliver_same_side reports s Hact Hr), IH. done.
Qed.

Lemma playbackLoop_waits_while_suppressed_witness :
  playbackLoop [(true, [(1 # 2)%Q]); (false, [])] (demo_scheduler 2 7 true)
  = ([], map (fun _ => Waited 1000) [(true, [(1 # 2)%Q]); (false, [])],
     demo_scheduler 2 7 true).
Proof.
  apply (playbackLoop_waits_while_suppressed
           [(true, [(1 # 2)%Q]); (false, [])] (demo_scheduler 2 7 true)).
  - reflexivity.
  - repeat constructor.
Defined.

(** ** Simulated static and invalid thresholds *)

Lemma onStaticDetected_enter level s :
  isStaticActive s = false →
  exceeds level (staticDetectionThreshold (config s)) = true →
  isStaticActive (onStaticDetected level s) = true
  ∧ staticTimer (onStaticDetected level s)
    = Some (mkTimer (maxStaticDuration (config s)))
  ∧ video_truthy (currentVideo (schedule (onStaticDetected level s))) = None.
Proof.
  intros Hact Hx. unfold onStaticDetected. rewrite Hx, Hact. cbn [negb].
  unfold stopCurrentVideo. cbn [schedule log].
  destruct (video_truthy (currentVideo (schedule s))) eqn:Hv.
  - cbn. by destruct (videoTimer s).
  - cbn. by rewrite Hv.
Qed.

Lemma onStaticDetected_leave level s :
  isStaticActive s = true →
  exceeds level (staticDetectionThreshold (config s)) = false →
  isStaticActive (onStaticDetected level s) = false
  ∧ staticTimer (onStaticDetected level s) = None.
Proof.
  intros Hact Hx. unfold onStaticDetected. rewrite Hx, Hact.
  cbn. by destruct (staticTimer s).
Qed.

(** An awaited call of [onStaticDetected], with nothing run in between, is
    the part before the [await] followed by the pending job. *)
Lemma onStaticDetected_begin_resume level s :
  onStaticDetected level s
  = (if snd (onStaticDetected_begin level s)
     then onStaticDetected_resume (fst (onStaticDetected_begin level s))
     else fst (onStaticDetected_begin level s)).
Proof.
  unfold onStaticDetected, onStaticDetected_begin.
  by destruct (exceeds _ _), (isStaticActive s).
Qed.

(** X21.  [simulateStatic(level, duration)] with a level above a threshold
    that is not negative, on a scheduler that is clear.  When the call
    returns, the guard is suppressed, no video is current and
    [playNextVideo] returns [null], but the persistence timer is NOT yet
    armed: the report was made without [await], and the arming is a pending
    job.  Once that job has run the state is that of an awaited report: the
    persistence timer is armed with [maxStaticDuration] and the guard is
    still suppressed.  When the timer of the simulation then fires, the
    guard is clear again, the persistence timer is cancelled, and
    permutation, cursor, play count and configuration are those from before
    the simulation. *)
Theorem simulateStatic_episode (level : Q) (duration : Z) (s : Scheduler) :
  isStaticActive s = false →
  exceeds level (staticDetectionThreshold (config s)) = true →
  exceeds 0 (staticDetectionThreshold (config s)) = false →
  let '(s1, pending) := snd (simulateStatic level duration s) in
  let s2 := onStaticDetected_resume s1 in
  let s3 := simulateStatic_timer s2 in
  fst (simulateStatic level duration s) = [NoteSimulating level duration]
  ∧ pending = true
  ∧ isStaticActive s1 = true
  ∧ staticTimer s1 = staticTimer s
  ∧ video_truthy (currentVideo (schedule s1)) = None
  ∧ (∀ ok, fst (playNextVideo ok s1) = None)
  ∧ s2 = onStaticDetected level s
  ∧ isStaticActive s2 = true
  ∧ staticTimer s2 = Some (mkTimer (maxStaticDuration (config s)))
  ∧ isStaticActive s3 = false
  ∧ staticTimer s3 = None
  ∧ shuffledOrder (schedule s3) = shuffledOrder (schedule s)
  ∧ currentIndex (schedule s3) = currentIndex (schedule s)
  ∧ totalPlayed (schedule s3) = totalPlayed (schedule s)
  ∧ config s3 = config s.
Proof.
  intros Hact Hx H0.
  pose proof (onStaticDetected_begin_resume level s) as Hsplit.
  unfold simulateStatic, simulateStatic_timer. cbn [fst snd].
  destruct (onStaticDetected_begin level s) as [s1 pending] eqn:Hbegin.
  cbn [fst snd] in Hsplit.
  assert (pending = true
          ∧ isStaticActive s1 = true
          ∧ staticTimer s1 = staticTimer s
          ∧ video_truthy (currentVideo (schedule s1)) = None)
    as (-> & Hon1 & Htimer1 & Hvid1).
  { unfold onStaticDetected_begin in Hbegin. rewrite Hx, Hact in Hbegin.
    cbn [negb] in Hbegin. injection Hbegin as <- <-.
    unfold stopCurrentVideo. cbn [schedule log].
    destruct (video_truthy (currentVideo (schedule s))) eqn:Hv.
    - cbn. by destruct (videoTimer s).
    - cbn. by rewrite Hv. }
  cbn [fst snd] in Hsplit. rewrite <- Hsplit.
  destruct (onStaticDetected_enter level s Hact Hx) as (Hon & Htimer & Hvid).
  assert (config (onStaticDetected level s) = config s) as Hcfg
    by apply onStaticDetected_config.
  destruct (onStaticDetected_leave 0 (onStaticDetected level s) Hon) as [Hoff Hnone];
    [by rewrite Hcfg|].
  destruct (onStaticDetected_schedule 0 (onStaticDetected level s))
    as (_ & Ho2 & Hi2 & Hp2 & _).
  destruct (onStaticDetected_schedule level s) as (_ & Ho1 & Hi1 & Hp1 & _).
  split_and!; try done.
  - intros ok. unfold playNextVideo. by rewrite Hon1.
  - by rewrite Ho2.
  - by rewrite Hi2.
  - by rewrite Hp2.
  - by rewrite onStaticDetected_config.
Qed.

Lemma simulateStatic_episode_witness :
  let s := demo_scheduler 2 7 false in
  let '(s1, pending) := snd (simulateStatic (1 # 2) 3000 s) in
  let s2 := onStaticDetected_resume s1 in
  let s3 := simulateStatic_timer s2 in
  fst (simulateStatic (1 # 2) 3000 s) = [NoteSimulating (1 # 2) 3000]
  ∧ pending = true
  ∧ isStaticActive s1 = true
  ∧ staticTimer s1 = staticTimer s
  ∧ video_truthy (currentVideo (schedule s1)) = None
  ∧ (∀ ok, fst (playNextVideo ok s1) = None)
  ∧ s2 = onStaticDetected (1 # 2) s
  ∧ isStaticActive s2 = true
  ∧ staticTimer s2 = Some (mkTimer (maxStaticDuration (config s)))
  ∧ isStaticActive s3 = false
  ∧ staticTimer s3 = None
  ∧ shuffledOrder (schedule s3) = shuffledOrder (schedule s)
  ∧ currentIndex (schedule s3) = currentIndex (schedule s)
  ∧ totalPlayed (schedule s3) = totalPlayed (schedule s)
  ∧ config s3 = config s.
Proof.
  apply (simulateStatic_episode (1 # 2) 3000 (demo_scheduler 2 7 false)).
  - reflexivity.
  - reflexivity.
  - reflexivity.
Defined.

Lemma exceeds_negative_threshold (level threshold : Q) :
  (threshold < 0)%Q → (0 <= level)%Q → exceeds level threshold = true.
Proof.
  intros Hthr Hlevel. unfold exceeds.
  destruct (Qle_bool level threshold) eqn:Hle; [|done].
  apply Qle_bool_iff in Hle.
  exfalso. apply (Qlt_irrefl 0).
  eapply Qle_lt_trans; [|exact Hthr]. by eapply Qle_trans.
Qed.

(** X22.  Under a negative detection threshold (which [loadConfig]
    accepts) every report of a level that is not negative suppresses the
    guard, the level 0 with which [simulateStatic] ends its episode
    included: after any such reports the guard is suppressed,
    [playNextVideo] returns [null] and the play count does not move. *)
Theorem negative_threshold_blocks_playback (reports : list Q) (s : Scheduler) :
  (staticDetectionThreshold (config s) < 0)%Q →
  reports ≠ [] →
  Forall (fun level => (0 <= level)%Q) reports →
  let s' := deliver reports s in
  isStaticActive s' = true
  ∧ isStaticActive (simulateStatic_timer s') = true
  ∧ ∀ ok, fst (playNextVideo ok s') = None
          ∧ totalPlayed (schedule (snd (playNextVideo ok s')))
            = totalPlayed (schedule s).
Proof.
  intros Hthr Hne Hall. cbv zeta.
  assert (isStaticActive (deliver reports s) = true) as Hon.
  { revert s Hthr Hne.
    induction Hall as [|level reports Hl _ IH]; intros s Hthr Hne; [done|].
    rewrite deliver_cons. destruct reports as [|level' reports'].
    - cbn. rewrite onStaticDetected_flag.
      by apply exceeds_negative_threshold.
    - apply IH; [|done]. by rewrite onStaticDetected_config. }
  destruct (deliver_schedule reports s) as (_ & _ & Hp & _ & Hcfg).
  split_and!; try done.
  - unfold simulateStatic_timer. rewrite onStaticDetected_flag, Hcfg.
    by apply exceeds_negative_threshold.
  - intros ok. unfold playNextVideo. by rewrite Hon.
Qed.

Lemma negative_threshold_blocks_playback_witness :
  let s := loadConfig (mkScheduler (demo_schedule 2 7) default_config false
                         None None Absent (Holds negative_threshold_data) []) in
  let s' := deliver [0%Q] s in
  isStaticActive s' = true
  ∧ isStaticActive (simulateStatic_timer s') = true
  ∧ ∀ ok, fst (playNextVideo ok s') = None
          ∧ totalPlayed (schedule (snd (playNextVideo ok s')))
            = totalPlayed (schedule s).
Proof.
  apply (negative_threshold_blocks_playback [0%Q]
           (loadConfig (mkScheduler (demo_schedule 2 7) default_config false
                          None None Absent (Holds negative_threshold_data) []))).
  - reflexivity.
  - discriminate.
  - repeat constructor. discriminate.
Defined.

(** ** The time zone self-test *)

(** X23.  In daily mode, on every host whose zone is within a day of UTC,
    [testTimezoneSync] prints the same seed for its two instants of
    2025-10-06 and a different one for 2025-10-07, so it reports success on
    every host; but the seeds it prints are 631377 then 631408 on a host at
    or west of UTC and 631346 then 631377 on a host east of UTC.  Run on one
    host, the test cannot show that hosts disagree. *)
Theorem testTimezoneSync_same_pattern_on_every_host (cfg : Config) (tza : Z) :
  dailySeedReset cfg = true →
  - JSDate.msPerDay < tza ≤ JSDate.msPerDay →
  ∃ today tomorrow,
    testTimezoneSync cfg tza
    = [NoteTimezoneTest; NoteSeedOf 1759708800000 today;
       NoteSeedOf 1759752000000 today; NoteSeedOf 1759795200000 tomorrow;
       NoteTimezoneTestDone]
    ∧ today ≠ tomorrow
    ∧ (tza ≤ 0 → today = 631377 ∧ tomorrow = 631408)
    ∧ (0 < tza → today = 631346 ∧ tomorrow = 631377).
Proof.
  intros Hd Hz. unfold testTimezoneSync, testDates. cbn [map app].
  rewrite !generateUTCSeed_daily_formula by (done || lia).
  change (JSDate.Day 1759708800000) with 20367.
  change (JSDate.Day 1759752000000) with 20367.
  change (JSDate.Day 1759795200000) with 20368.
  destruct (Z_le_gt_dec tza 0) as [Hwest|Heast].
  - rewrite (proj2 (generateUTCSeed_day_index tza 20367)) by lia.
    rewrite (proj2 (generateUTCSeed_day_index tza 20368)) by lia.
    eexists _, _. split; [reflexivity|]. split_and!; try done; lia.
  - rewrite (proj1 (generateUTCSeed_day_index tza 20367)) by lia.
    rewrite (proj1 (generateUTCSeed_day_index tza 20368)) by lia.
    eexists _, _. split; [reflexivity|]. split_and!; try done; lia.
Qed.

Lemma testTimezoneSync_same_pattern_on_every_host_witness :
  ∃ today tomorrow,
    testTimezoneSync default_config 19800000
    = [NoteTimezoneTest; NoteSeedOf 1759708800000 today;
       NoteSeedOf 1759752000000 today; NoteSeedOf 1759795200000 tomorrow;
       NoteTimezoneTestDone]
    ∧ today ≠ tomorrow
    ∧ (19800000 ≤ 0 → today = 631377 ∧ tomorrow = 631408)
    ∧ (0 < 19800000 → today = 631346 ∧ tomorrow = 631377).
Proof.
  apply (testTimezoneSync_same_pattern_on_every_host default_config 19800000).
  - reflexivity.
  - vm_compute. split; reflexivity || discriminate.
Defined.

(** ** Cursor and cycle of a generated schedule *)

(** X24.  Every operation (static report, [playNextVideo],
    [generateSchedule], [stopCurrentVideo]) keeps the cursor inside the
    permutation: from a state in which a non-empty permutation has its
    cursor in range, as the state built by the constructor, every run ends
    in such a state. *)
Theorem run_keeps_cursor_in_range (ops : list op) (s : Scheduler) :
  (shuffledOrder (schedule s) ≠ [] →
   0 ≤ currentIndex (schedule s)
     < Z.of_nat (length (shuffledOrder (schedule s)))) →
  shuffledOrder (schedule (run ops s)) ≠ [] →
  0 ≤ currentIndex (schedule (run ops s))
    < Z.of_nat (length (shuffledOrder (schedule (run ops s)))).
Proof.
  revert s. induction ops as [|o ops' IH]; intros s Hinv; [done|].
  rewrite run_cons. apply IH. by apply step_cursor_in_range.
Qed.

Lemma run_keeps_cursor_in_range_witness :
  0 ≤ currentIndex
        (schedule (run [OpGenerate false (demo_env 1759752060000);
                        OpPlayNext true; OpReport (1 # 2); OpPlayNext true]
                       (new_VideoScheduler Absent Absent)))
    < Z.of_nat
        (length (shuffledOrder
           (schedule (run [OpGenerate false (demo_env 1759752060000);
                           OpPlayNext true; OpReport (1 # 2); OpPlayNext true]
                          (new_VideoScheduler Absent Absent))))).
Proof.
  apply (run_keeps_cursor_in_range
           [OpGenerate false (demo_env 1759752060000);
            OpPlayNext true; OpReport (1 # 2); OpPlayNext true]
           (new_VideoScheduler Absent Absent)).
  - intros Hne. exfalso. apply Hne. reflexivity.
  - vm_compute. discriminate.
Defined.

Lemma generateUTCSeed_nonneg (cfg : Config) (tza t : Z) :
  JSDate.msPerDay ≤ t → tza ≤ JSDate.msPerDay →
  0 ≤ generateUTCSeed cfg tza t.
Proof. intros Ht Hz. by apply generateUTCSeed_range. Qed.

(** X25.  End to end: when [generateSchedule] regenerates from a directory
    listing without duplicate entries, at an instant from 1970-01-02 on and
    on a host at most a day east of UTC, and the guard is clear, then as
    many calls of [playNextVideo] as there are videos return every video of
    the catalog exactly once (a permutation of the catalog, without
    repetition), and the cursor is back at 0. *)
Theorem regenerate_then_play_serves_each_video_once (force : bool)
    (files : list string) (e0 : GenEnv) (s : Scheduler) (oks : list bool) :
  NoDup files →
  videos (env_of_listing (Some files) e0) ≠ [] →
  shouldRegenerate force (env_of_listing (Some files) e0) s = true →
  isStaticActive s = false →
  JSDate.msPerDay ≤ seedInstant e0 → hostZone e0 ≤ JSDate.msPerDay →
  length oks = length (videos (env_of_listing (Some files) e0)) →
  let s1 := snd (generateSchedule force (env_of_listing (Some files) e0) s) in
  fst (play_many oks s1) ≡ₚ Some <$> videos (env_of_listing (Some files) e0)
  ∧ NoDup (fst (play_many oks s1))
  ∧ currentIndex (schedule (snd (play_many oks s1))) = 0.
Proof.
  cbv zeta. intros Hnd Hne Hre Hact Ht Hz Hlen.
  set (e := env_of_listing (Some files) e0) in *.
  destruct (generateSchedule_regenerates force e s Hne Hre)
    as (_ & Hsch & _ & Hflag).
  set (s1 := snd (generateSchedule force e s)) in *.
  assert (shuffledOrder (schedule s1) ≡ₚ Some <$> videos e) as Hperm.
  { rewrite Hsch. cbn. apply shuffled_items_perm.
    by apply generateUTCSeed_nonneg. }
  assert (length (shuffledOrder (schedule s1)) = length (videos e)) as Hl.
  { by rewrite Hperm, length_fmap. }
  destruct (play_many_segment oks 0 s1) as (Hvs & _ & _ & _ & _ & Hci & _).
  { by rewrite Hflag. }
  { by rewrite Hsch. }
  { cbn. lia. }
  rewrite drop_0, Hlen, <- Hl, firstn_all in Hvs.
  rewrite Hvs. split_and!.
  - done.
  - rewrite Hperm. apply (NoDup_fmap_2 _).
    subst e. unfold env_of_listing. cbn [videos].
    rewrite getVideoFiles_perm. by apply NoDup_filter.
  - rewrite Hci. cbn [Nat.add]. rewrite Hlen, Hl, Nat.eqb_refl.
    by destruct (videos e).
Qed.

Lemma regenerate_then_play_serves_each_video_once_witness :
  let s1 := snd (generateSchedule false
                   (env_of_listing (Some ["b.mp4"; "notes.txt"; "a.mp4"; "c.MP4"])
                                   (demo_env 1759752060000))
                   (demo_scheduler 1 5 false)) in
  fst (play_many [true; true; true] s1)
  ≡ₚ Some <$> videos (env_of_listing (Some ["b.mp4"; "notes.txt"; "a.mp4"; "c.MP4"])
                                     (demo_env 1759752060000))
  ∧ NoDup (fst (play_many [true; true; true] s1))
  ∧ currentIndex (schedule (snd (play_many [true; true; true] s1))) = 0.
Proof.
  apply (regenerate_then_play_serves_each_video_once false
           ["b.mp4"; "notes.txt"; "a.mp4"; "c.MP4"] (demo_env 1759752060000)
           (demo_scheduler 1 5 false) [true; true; true]).
  - apply (bool_decide_unpack _). vm_compute. exact I.
  - vm_compute. discriminate.
  - reflexivity.
  - reflexivity.
  - vm_compute. discriminate.
  - vm_compute. discriminate.
  - reflexivity.
Defined.
